(** * conv2d: a CUDA 2D convolution (conv2dV1.cu), embedded and verified

    The development follows the source file top to bottom:

    - [Int], [UInt] and [Size]: the 32-bit [int] and [unsigned int] and the
      64-bit [size_t] arithmetic of the index and size computations, on [Z]
      with the wrap-around written out;
    - [Scalar]: the element type of the buffers.  The kernel only uses a zero,
      an addition and a multiplication; it is embedded once, for any carrier.
      Statements that need arithmetic laws name the laws they need
      ([ExactArith]: exact arithmetic, not the rounding of [float]); the
      rationals [Qc] are the executable instance of exact arithmetic and
      [binary32] is the [float] of the program;
    - [result]: a memory access outside the accessed buffer is a [Fault]
      carrying the offending access, and nothing after it is executed;
    - [conv2d_kernel]: the body one worker executes, state passing on the
      output buffer;
    - [plan_grid], [grid_workers], [launch]: the dispatch shape chosen by
      [main] and the execution of every worker of the grid, in an arbitrary
      order;
    - [main]: the host sequence, over an explicit environment, producing the
      list of effects and the exit status.

    The theorems about dimensions [H] and [W] are stated for the dimensions
    the program's own [int] arithmetic can hold ([shape_ok]): the element count
    [H * W], computed by [main] for every buffer, and the sums [H + 15] and
    [W + 15] of the planner do not exceed [INT_MAX]. *)

From Stdlib Require Import ZArith QArith Qcanon Lia Bool SpecFloat.
From stdpp Require Import base tactics option list list_numbers strings pretty.

Local Open Scope Z_scope.

(** ** Machine integers *)

(** [int]: 32 bits, two's complement. *)
Module Int.
Definition INT_MAX : Z := 2147483647.
Definition INT_MIN : Z := -2147483648.

Definition wrap (z : Z) : Z := (z + 2 ^ 31) mod 2 ^ 32 - 2 ^ 31.

Definition fits (z : Z) : Prop := INT_MIN <= z <= INT_MAX.

Definition add (a b : Z) : Z := wrap (a + b).
Definition mul (a b : Z) : Z := wrap (a * b).
Definition neg (a : Z) : Z := wrap (- a).
(** [/] on [int] truncates toward zero. *)
Definition div (a b : Z) : Z := wrap (Z.quot a b).
End Int.

(** [unsigned int]: 32 bits, arithmetic modulo [2^32]. *)
Module UInt.
Definition wrap (z : Z) : Z := z mod 2 ^ 32.
Definition add (a b : Z) : Z := wrap (a + b).
Definition mul (a b : Z) : Z := wrap (a * b).
End UInt.

(** [dim3]: three [unsigned int] components. *)
Record dim3 : Type := Dim3 { dx : Z; dy : Z; dz : Z }.

Global Instance dim3_eq_dec : EqDecision dim3.
Proof. solve_decision. Defined.

(** ** Scalars *)

Class Scalar (F : Type) : Type := {
  f0 : F;
  fadd : F -> F -> F;
  fmul : F -> F -> F
}.

Global Instance Qc_scalar : Scalar Qc := {|
  f0 := Q2Qc 0;
  fadd := Qcplus;
  fmul := Qcmult
|}.

(** ** Memory accesses *)

Inductive access : Type :=
| RdInput (i : Z)
| RdFilter (i : Z)
| WrOutput (i : Z).

Inductive result (A : Type) : Type :=
| Done (a : A)
| Fault (acc : access).
Global Arguments Done {A} a.
Global Arguments Fault {A} acc.

Global Instance result_ret : MRet result := @Done.
Global Instance result_bind : MBind result := fun A B k m =>
  match m with
  | Done a => k a
  | Fault acc => Fault acc
  end.

(** [buf[i]] as an rvalue, [i] an [int]. *)
Definition load {F} (buf : list F) (what : Z -> access) (i : Z) : result F :=
  if 0 <=? i then
    match buf !! Z.to_nat i with
    | Some v => Done v
    | None => Fault (what i)
    end
  else Fault (what i).

(** [buf[i] = v]. *)
Definition store {F} (buf : list F) (i : Z) (v : F) : result (list F) :=
  if (0 <=? i) && (i <? Z.of_nat (length buf)) then Done (<[Z.to_nat i := v]> buf)
  else Fault (WrOutput i).

(** [for (int i = lo; i <= hi; i++) s = body i s]. *)
Fixpoint for_each {S} (body : Z -> S -> result S) (l : list Z) (s : S) : result S :=
  match l with
  | [] => Done s
  | i :: l => s' ← body i s; for_each body l s'
  end.

Definition for_range {S} (lo hi : Z) (body : Z -> S -> result S) (s : S) : result S :=
  for_each body (seqZ lo (hi - lo + 1)) s.

(** ** The kernel (conv2d_kernel) *)

Section Kernel.
Context {F : Type} {SF : Scalar F}.

(** [blockIdx.y * blockDim.y + threadIdx.y], computed on [unsigned int] and
    converted to [int]. *)
Definition worker_row (blockDim blockIdx threadIdx : dim3) : Z :=
  Int.wrap (UInt.add (UInt.mul (dy blockIdx) (dy blockDim)) (dy threadIdx)).

Definition worker_col (blockDim blockIdx threadIdx : dim3) : Z :=
  Int.wrap (UInt.add (UInt.mul (dx blockIdx) (dx blockDim)) (dx threadIdx)).

(** The body of the inner loop: one filter tap. *)
Definition tap (input filter : list F) (H W R row col pad i j : Z) (sum : F)
  : result F :=
  let r := Int.add row i in
  let c := Int.add col j in
  if (0 <=? r) && (r <? H) && (0 <=? c) && (c <? H) then
    let filter_row := Int.add i pad in
    let filter_col := Int.add j pad in
    x ← load input RdInput (Int.add (Int.mul r W) c);
    f ← load filter RdFilter (Int.add (Int.mul filter_row R) filter_col);
    Done (fadd sum (fmul x f))
  else Done sum.

(** The two nested loops, from [sum = 0.0f]. *)
Definition window_sum (input filter : list F) (H W R row col : Z) : result F :=
  let pad := Int.div R 2 in
  for_range (Int.neg pad) pad (fun i sum =>
    for_range (Int.neg pad) pad (fun j sum =>
      tap input filter H W R row col pad i j sum) sum) f0.

Definition conv2d_kernel (input filter output : list F) (H W R : Z)
    (blockDim blockIdx threadIdx : dim3) : result (list F) :=
  let row := worker_row blockDim blockIdx threadIdx in
  let col := worker_col blockDim blockIdx threadIdx in
  if (row <? H) && (col <? W) then
    sum ← window_sum input filter H W R row col;
    store output (Int.add (Int.mul row W) col) sum
  else Done output.
End Kernel.

(** ** The execution grid *)

(** [dim3 blockDim(16, 16)]. *)
Definition blockDim16 : dim3 := Dim3 16 16 1.

(** [dim3 gridDim((W + 15) / 16, (H + 15) / 16)]: [int] arithmetic, converted
    to the [unsigned int] components of [dim3]. *)
Definition plan_grid (H W : Z) : dim3 :=
  Dim3 (UInt.wrap (Int.div (Int.add W 15) 16))
       (UInt.wrap (Int.div (Int.add H 15) 16))
       1.

(** All indices below a [dim3] extent. *)
Definition indices (d : dim3) : list dim3 :=
  z ← seqZ 0 (dz d); y ← seqZ 0 (dy d); x ← seqZ 0 (dx d); [Dim3 x y z].

(** A worker is a (blockIdx, threadIdx) pair. *)
Definition grid_workers (gridDim blockDim : dim3) : list (dim3 * dim3) :=
  b ← indices gridDim; t ← indices blockDim; [(b, t)].

Section Launch.
Context {F : Type} {SF : Scalar F}.

(** [conv2d_kernel<<<gridDim, blockDim>>>(...)], the workers taken in the
    order of [sched].  A worker reads [input] and [filter] only and stores
    once, so running the workers one after the other loses no behaviour. *)
Fixpoint launch (sched : list (dim3 * dim3)) (input filter output : list F)
    (H W R : Z) (blockDim : dim3) : result (list F) :=
  match sched with
  | [] => Done output
  | w :: sched =>
      output' ← conv2d_kernel input filter output H W R blockDim w.1 w.2;
      launch sched input filter output' H W R blockDim
  end.
End Launch.

(** ** The host program *)

(** [size_t]: 64 bits. *)
Module Size.
Definition wrap (z : Z) : Z := z mod 2 ^ 64.
Definition mul (a b : Z) : Z := wrap (a * b).
(** [sizeof(float)]. *)
Definition sizeof_float : Z := 4.
End Size.

Definition EXIT_FAILURE : Z := 1.

(** What the process does to the world, in order. *)
Inductive event {F : Type} : Type :=
| Stderr (msg : string)
| Stdout (msg : string)
| OpenFile (path : string)
| HostAlloc (bytes : Z)
| DeviceAlloc (bytes : Z)
| CopyToDevice (bytes : Z)
| KernelLaunch (gridDim blockDim : dim3)
| GetLastError
| CopyToHost (bytes : Z)
| PrintValue (v : F)
| DeviceFree
| HostFree
| DeviceReset.
Global Arguments event : clear implicits.

(** How a run ends: [exit(status)] or [return status] from [main], or a
    behaviour the language leaves undefined. *)
Inductive ending : Type :=
| Exit (status : Z)
| Undefined.

Inductive run (F A : Type) : Type :=
| Ret (t : list (event F)) (a : A)
| Halt (t : list (event F)) (e : ending).
Global Arguments Ret {F A} t a.
Global Arguments Halt {F A} t e.

Global Instance run_ret {F} : MRet (run F) := fun A a => Ret [] a.
Global Instance run_bind {F} : MBind (run F) := fun A B k m =>
  match m with
  | Ret t a =>
      match k a with
      | Ret t' b => Ret (t ++ t') b
      | Halt t' e => Halt (t ++ t') e
      end
  | Halt t e => Halt t e
  end.

Definition emit {F} (ev : event F) : run F unit := Ret [ev] tt.
Definition halt {F A} (e : ending) : run F A := Halt [] e.

(** The calls into the CUDA runtime whose status [main] checks. *)
Inductive cuda_call : Type :=
| MallocInput | MallocFilter | MallocOutput
| MemcpyInput | MemcpyFilter | LaunchKernel | MemcpyOutput
| FreeInput | FreeFilter | FreeOutput | ResetDevice.

Inductive host_buffer : Type := HInput | HFilter | HOutput.

(** Everything [main] takes from outside: the files (as the extraction
    operators deliver them: the header and the numeric tokens that follow),
    which allocations and runtime calls fail, what the fresh device buffer
    holds and the order in which the device runs the workers. *)
Record env (F : Type) : Type := {
  input_file : string -> option (Z * Z * list F);
  filter_file : string -> option (Z * list F);
  malloc_null : host_buffer -> bool;
  cuda_fails : cuda_call -> bool;
  fresh_device_memory : list F;
  schedule : list (dim3 * dim3) -> list (dim3 * dim3);
  schedule_perm : forall l, schedule l ≡ₚ l
}.
Global Arguments input_file {F} e path : rename.
Global Arguments filter_file {F} e path : rename.
Global Arguments malloc_null {F} e b : rename.
Global Arguments cuda_fails {F} e c : rename.
Global Arguments fresh_device_memory {F} e : rename.
Global Arguments schedule {F} e l : rename.

Section Host.
Context {F : Type} {SF : Scalar F}.

(** [n * sizeof(float)] for an [int] count [n]: the count is converted to
    [size_t] first. *)
Definition float_bytes (n : Z) : Z := Size.mul (Size.wrap n) Size.sizeof_float.

(** The element loop shared by [readInput] and [readFilter]: the buffer comes
    from [malloc(size)], [size] an [int]; the loop stores the numeric tokens
    [toks] one by one, up to [n] of them, and stops with an error when they
    run out.  A store past the end of the buffer (a null pointer holds
    nothing) is undefined behaviour. *)
Definition read_elements (e : env F) (b : host_buffer) (n size : Z)
    (toks : list F) : run F (option (list F)) :=
  emit (HostAlloc (Size.wrap size));;
  let capacity :=
    if malloc_null e b then 0 else Size.wrap size `div` Size.sizeof_float in
  let stored := Z.min n (Z.of_nat (length toks)) in
  if capacity <? stored then halt Undefined
  else if Z.of_nat (length toks) <? n then
    emit (Stderr ("Error: Invalid file format. Expected " +:+ pretty n +:+ " elements."));;
    halt (Exit EXIT_FAILURE)
  else Ret [] (if malloc_null e b then None else Some (take (Z.to_nat n) toks)).

Definition readInput (e : env F) (fileName : string)
  : run F (option (list F) * Z * Z) :=
  emit (OpenFile fileName);;
  match input_file e fileName with
  | None =>
      emit (Stderr ("Error: Could not open Input file " +:+ fileName));;
      halt (Exit EXIT_FAILURE)
  | Some (H, W, toks) =>
      let size := Int.wrap (float_bytes (Int.mul H W)) in
      h_input ← read_elements e HInput (Int.mul H W) size toks;
      Ret [] (h_input, H, W)
  end.

Definition readFilter (e : env F) (fileName : string)
  : run F (option (list F) * Z) :=
  emit (OpenFile fileName);;
  match filter_file e fileName with
  | None =>
      emit (Stderr ("Error: Could not open Filter file " +:+ fileName));;
      halt (Exit EXIT_FAILURE)
  | Some (R, toks) =>
      let size := Int.wrap (float_bytes (Int.mul R R)) in
      h_filter ← read_elements e HFilter (Int.mul R R) size toks;
      Ret [] (h_filter, R)
  end.

Fixpoint for_each_run (body : Z -> run F unit) (l : list Z) : run F unit :=
  match l with
  | [] => Ret [] tt
  | i :: l => body i;; for_each_run body l
  end.

Definition writeOutput (h_output : list F) (H W : Z) : run F unit :=
  for_each_run (fun i =>
    for_each_run (fun j =>
      match h_output !! Z.to_nat (Int.add (Int.mul i W) j) with
      | Some v => emit (PrintValue v)
      | None => halt Undefined
      end) (seqZ 0 W)) (seqZ 0 H).

(** A runtime call followed by its [if (err != cudaSuccess)] block; the
    text of [cudaGetErrorString] is left out of the message. *)
Definition checked (e : env F) (c : cuda_call) (ev : event F) (msg : string)
  : run F unit :=
  emit ev;;
  if cuda_fails e c then emit (Stderr msg);; halt (Exit EXIT_FAILURE)
  else Ret [] tt.

(** [main], statement by statement.  Of the line printed at line 162 only
    the fixed text is kept (the call hands two [dim3] to [%d]).  A launch
    whose kernel reads outside a buffer ends the described run with
    [Undefined]: what the process does after such an access (in practice it
    goes on with what the memory held there) is not described. *)
Definition main (e : env F) (argc : Z) (argv : list string) : run F Z :=
  if argc <? 3 then
    emit (Stderr "ERROR: number of arguments < 3");;
    Ret [] (-1)
  else
    '(h_input, H, W) ← readInput e (default EmptyString (argv !! 1%nat));
    '(h_filter, R) ← readFilter e (default EmptyString (argv !! 2%nat));
    emit (Stdout ("[Vector multiplication of " +:+ pretty H +:+ " x " +:+ pretty W
                  +:+ " by " +:+ pretty R +:+ " x " +:+ pretty R +:+ " matrices]"));;
    match h_input, h_filter with
    | Some h_input, Some h_filter =>
        checked e MallocInput (DeviceAlloc (float_bytes (Int.mul H W)))
          "Failed to allocate device matrix input";;
        checked e MallocFilter (DeviceAlloc (float_bytes (Int.mul R R)))
          "Failed to allocate device matrix filter";;
        checked e MallocOutput (DeviceAlloc (float_bytes (Int.mul H W)))
          "Failed to allocate device matrix output";;
        emit (Stdout "Copy input data from the host memory to the CUDA device");;
        checked e MemcpyInput (CopyToDevice (float_bytes (Int.mul H W)))
          "Failed to copy matrix input from host to device";;
        checked e MemcpyFilter (CopyToDevice (float_bytes (Int.mul R R)))
          "Failed to copy matrix filter from host to device";;
        let blockDim := blockDim16 in
        let gridDim := plan_grid H W in
        emit (Stdout "CUDA kernel launch with blocks of threads");;
        emit (KernelLaunch gridDim blockDim);;
        checked e LaunchKernel GetLastError
          "Failed to launch 2D convolution kernel";;
        let d_output :=
          resize (Z.to_nat (Int.mul H W)) f0 (fresh_device_memory e) in
        match launch (schedule e (grid_workers gridDim blockDim))
                h_input h_filter d_output H W R blockDim with
        | Fault _ => halt Undefined
        | Done d_output =>
            emit (HostAlloc (float_bytes (Int.mul H W)));;
            if malloc_null e HOutput then
              emit (Stderr "Failed to allocate host output matrix!");;
              halt (Exit EXIT_FAILURE)
            else
              emit (Stdout "Copy output matrix from the CUDA device to the host memory");;
              checked e MemcpyOutput (CopyToHost (float_bytes (Int.mul H W)))
                "Failed to copy output matrix from device to host";;
              let h_output := d_output in
              writeOutput h_output H W;;
              emit (Stdout "Test Completed");;
              checked e FreeInput DeviceFree "Failed to free device input matrix";;
              checked e FreeFilter DeviceFree "Failed to free device filter matrix";;
              checked e FreeOutput DeviceFree "Failed to free device output matrix";;
              emit HostFree;; emit HostFree;; emit HostFree;;
              checked e ResetDevice DeviceReset "Failed to deinitialize the device!";;
              emit (Stdout "Done");;
              Ret [] 0
        end
    | _, _ =>
        emit (Stderr "Failed to allocate host input and filter matrices!");;
        halt (Exit EXIT_FAILURE)
    end.

(** The status the process ends with and the effects it had. *)
Definition exit_status (r : run F Z) : option Z :=
  match r with
  | Ret _ status => Some status
  | Halt _ (Exit status) => Some status
  | Halt _ Undefined => None
  end.

Definition effects (r : run F Z) : list (event F) :=
  match r with Ret t _ => t | Halt t _ => t end.
End Host.

(** The values [writeOutput] printed, as fractions. *)
Definition printed (t : list (event Qc)) : list Q :=
  omap (fun ev => match ev with PrintValue v => Some (this v) | _ => None end) t.

(** Allocation, transfer and computation, as opposed to messages. *)
Definition is_work {F} (ev : event F) : bool :=
  match ev with
  | Stderr _ | Stdout _ => false
  | _ => true
  end.

(** Two runs agree: the same output buffer, or a read outside a buffer in
    both; nothing is said of what two such runs compute afterwards. *)
Definition same_outcome {A} (r1 r2 : result A) : Prop :=
  match r1, r2 with
  | Done a, Done b => a = b
  | Fault _, Fault _ => True
  | _, _ => False
  end.

(** ** The contract of the specification, in its own words *)

(** The ceiling of [a / b]. *)
Definition ceil_div (a b : Z) : Z := - ((- a) `div` b).

Section Contract.
Context {F : Type} {SF : Scalar F}.

(** Element [(r, c)] of a row-major buffer of width [W]. *)
Definition at2 (m : list F) (W r c : Z) : F :=
  default f0 (m !! Z.to_nat (r * W + c)).

(** [sum = 0; for i in [-pad, pad], for j in [-pad, pad]: r = row + i;
    c = col + j; if r in [0,H) and c in [0,W): sum += input[r, c] *
    filter[i+pad, j+pad]], with [pad = R / 2]. *)
Definition conv_spec (input filter : list F) (H W R row col : Z) : F :=
  let pad := Z.quot R 2 in
  foldl (fun sum i =>
    foldl (fun sum j =>
      let r := row + i in
      let c := col + j in
      if (0 <=? r) && (r <? H) && (0 <=? c) && (c <? W)
      then fadd sum (fmul (at2 input W r c) (at2 filter R (i + pad) (j + pad)))
      else sum) sum (seqZ (- pad) (2 * pad + 1)))
    f0 (seqZ (- pad) (2 * pad + 1)).

(** Elementwise sum of two buffers. *)
Definition madd (A B : list F) : list F := zip_with fadd A B.
End Contract.

(** ** Well-formed problems and the closed form of the kernel's sum *)

(** Dimensions the index arithmetic can hold: [main] computes the element
    count [H * W] and the planner sums [H + 15] and [W + 15] in [int]. *)
Definition shape_ok (H W : Z) : Prop :=
  1 <= H /\ 1 <= W /\ H * W <= Int.INT_MAX /\
  H + 15 <= Int.INT_MAX /\ W + 15 <= Int.INT_MAX.

(** A filter of odd side [R], and coordinates [row + i], [col + j] of its
    window that are in the range of [int]. *)
Definition window_ok (H W R : Z) : Prop :=
  1 <= R /\ Z.odd R = true /\ R * R <= Int.INT_MAX /\
  H + R <= Int.INT_MAX /\ W + R <= Int.INT_MAX.

Section ClosedForm.
Context {F : Type} {SF : Scalar F}.

(** The sum of the contract with the bound of the column test as a
    parameter: the contract tests [c < W], the kernel tests [c < H]. *)
Definition conv_sum (bound : Z) (input filter : list F) (H W R row col : Z) : F :=
  let pad := Z.quot R 2 in
  foldl (fun sum i =>
    foldl (fun sum j =>
      let r := row + i in
      let c := col + j in
      if (0 <=? r) && (r <? H) && (0 <=? c) && (c <? bound)
      then fadd sum (fmul (at2 input W r c) (at2 filter R (i + pad) (j + pad)))
      else sum) sum (seqZ (- pad) (2 * pad + 1)))
    f0 (seqZ (- pad) (2 * pad + 1)).
End ClosedForm.

(** The laws of exact arithmetic that the algebraic properties rest on. *)
Class ExactArith (F : Type) {SF : Scalar F} : Prop := {
  fadd_comm : forall x y : F, fadd x y = fadd y x;
  fadd_assoc : forall x y z : F, fadd x (fadd y z) = fadd (fadd x y) z;
  fadd_0_l : forall x : F, fadd f0 x = x;
  fmul_0_r : forall x : F, fmul x f0 = f0;
  fmul_add_distr_r : forall x y z : F, fmul (fadd x y) z = fadd (fmul x z) (fmul y z)
}.

(** The coordinate of a worker of a 16x16 tile, and whether it passes the
    guard of the kernel from a coordinate that is not negative. *)
Definition row_of (w : dim3 * dim3) : Z := worker_row blockDim16 w.1 w.2.
Definition col_of (w : dim3 * dim3) : Z := worker_col blockDim16 w.1 w.2.

Definition inside (H W : Z) (w : dim3 * dim3) : Prop :=
  0 <= row_of w < H /\ 0 <= col_of w < W.

Global Instance inside_dec H W w : Decision (inside H W w).
Proof. unfold inside. apply _. Defined.

Definition nonneg (w : dim3 * dim3) : Prop := 0 <= row_of w /\ 0 <= col_of w.

(** Rational literals and the mean of a list of rationals. *)
Definition qz (z : Z) : Qc := Q2Qc (inject_Z z).
Definition qmean (l : list Qc) : Qc :=
  Qcdiv (foldr Qcplus (qz 0) l) (qz (Z.of_nat (length l))).

(** ** The inputs of the worked examples *)

(** The 2x3 matrix [[1,2,3],[4,5,6]] and the 3x3 filter of ones. *)
Definition mat_2x3 : list Qc := qz <$> [1; 2; 3; 4; 5; 6].
Definition ones_3x3 : list Qc := replicate 9 (qz 1).

(** The 3x3 matrix [[1,2,3],[4,5,6],[7,8,9]] and the 3x3 box blur. *)
Definition mat_3x3 : list Qc := qz <$> [1; 2; 3; 4; 5; 6; 7; 8; 9].
Definition box_blur : list Qc := replicate 9 (Qcdiv (qz 1) (qz 9)).

(** The run of the planned grid in the order of [grid_workers], from an
    output buffer of zeros. *)
Definition conv2d (input filter : list Qc) (H W R : Z) : result (list Qc) :=
  launch (grid_workers (plan_grid H W) blockDim16) input filter
    (replicate (Z.to_nat (H * W)) (qz 0)) H W R blockDim16.

(** The contract at every coordinate, row-major. *)
Definition conv_spec_all (input filter : list Qc) (H W R : Z) : list Qc :=
  (fun k => conv_spec input filter H W R (k `div` W) (k `mod` W)) <$> seqZ 0 (H * W).

(** An environment in which every file opens and no call fails. *)
Definition quiet_env : env Qc := {|
  input_file := fun _ => Some (3, 3, mat_3x3);
  filter_file := fun _ => Some (3, box_blur);
  malloc_null := fun _ => false;
  cuda_fails := fun _ => false;
  fresh_device_memory := [];
  schedule := fun l => l;
  schedule_perm := fun l => reflexivity l
|}.

(** ** Reading a run of the host program *)

(** The values [writeOutput] printed, in order. *)
Definition print_values {F} (t : list (event F)) : list F :=
  omap (fun ev => match ev with PrintValue v => Some v | _ => None end) t.

(** The run [r] after the effects [t]. *)
Definition after {F A} (t : list (event F)) (r : run F A) : run F A :=
  match r with
  | Ret t' a => Ret (t ++ t') a
  | Halt t' e => Halt (t ++ t') e
  end.


(** An environment whose device runs the workers in reverse order on used
    memory, with the input file, the failing CUDA calls and the failing
    allocations as parameters. *)
Definition device_env (inp : option (Z * Z * list Qc))
    (fails : cuda_call -> bool) (null : host_buffer -> bool) : env Qc := {|
  input_file := fun _ => inp;
  filter_file := fun _ => Some (3, box_blur);
  malloc_null := null;
  cuda_fails := fails;
  fresh_device_memory := replicate 9 (qz 7);
  schedule := reverse;
  schedule_perm := reverse_Permutation
|}.

(** ** The element type of the program *)

(** [float] is IEEE 754 binary32: 24 bits of precision, exponents up to 128,
    rounding to nearest even; the product and the sum of
    [sum += input[..] * filter[..]] are rounded one after the other (a
    compiler may fuse them into one operation with a single rounding; that
    is not modelled). *)
Definition float_add : spec_float -> spec_float -> spec_float := SFadd 24 128.
Definition float_mul : spec_float -> spec_float -> spec_float := SFmul 24 128.

Definition binary32 : Scalar spec_float := {|
  f0 := S754_zero false;
  fadd := float_add;
  fmul := float_mul
|}.

(** The [float] of an integer. *)
Definition f32 (z : Z) : spec_float := binary_normalize 24 128 z 0 false.

(** The run of the planned grid on [float], in the order of [grid_workers],
    from an output buffer of zeros.  [memory] is the device memory from the
    address of the input buffer on: the [H * W] elements of the buffer,
    followed by what the memory holds after them.  With the buffer alone a
    read past its end is a [Fault]; with the memory after it the read
    returns what is stored there, as on the device. *)
Definition conv2d_float (memory filter : list spec_float) (H W R : Z)
  : result (list spec_float) :=
  launch (SF := binary32) (grid_workers (plan_grid H W) blockDim16) memory filter
    (replicate (Z.to_nat (H * W)) (S754_zero false)) H W R blockDim16.

(** The 3x2 matrices [[1,2],[3,4],[5,6]] and [[6,5],[4,3],[2,1]], and the
    3x3 filters of zeros and of ones. *)
Definition tall_3x2 : list spec_float := f32 <$> [1; 2; 3; 4; 5; 6].
Definition tall_3x2_rev : list spec_float := f32 <$> [6; 5; 4; 3; 2; 1].
Definition zeros_3x3_float : list spec_float := replicate 9 (f32 0).
Definition ones_3x3_float : list spec_float := replicate 9 (f32 1).

(** * Verification *)

(** Evaluation on rationals: two computed values are equal when their
    reduced fractions are. *)
Lemma Qc_list_eq (l1 l2 : list Qc) : this <$> l1 = this <$> l2 -> l1 = l2.
Proof.
  revert l2. induction l1 as [|x l1 IH]; intros [|y l2]; simpl; try done.
  intros [= Hxy Hl]. f_equal; [|by apply IH].
  apply Qc_is_canon. by rewrite Hxy.
Qed.

Ltac qc_eval :=
  vm_compute;
  lazymatch goal with
  | |- Done _ = Done _ => apply (f_equal Done), Qc_list_eq; reflexivity
  | |- Some _ = Some _ => apply (f_equal Some), Qc_is_canon; reflexivity
  | |- @eq (list Qc) _ _ => apply Qc_list_eq; reflexivity
  | |- @eq Qc _ _ => apply Qc_is_canon; reflexivity
  | |- _ => reflexivity
  end.

(** ** Machine arithmetic without overflow *)

Lemma Int_wrap_fits z : Int.fits z -> Int.wrap z = z.
Proof.
  unfold Int.fits, Int.INT_MIN, Int.INT_MAX, Int.wrap. intros Hz.
  change (2 ^ 31) with 2147483648. change (2 ^ 32) with 4294967296.
  rewrite Z.mod_small; lia.
Qed.

Lemma UInt_wrap_small z : 0 <= z < 2 ^ 32 -> UInt.wrap z = z.
Proof. unfold UInt.wrap. intros Hz. by rewrite Z.mod_small. Qed.

Lemma Int_add_fits a b : Int.fits (a + b) -> Int.add a b = a + b.
Proof. apply Int_wrap_fits. Qed.

Lemma Int_mul_fits a b : Int.fits (a * b) -> Int.mul a b = a * b.
Proof. apply Int_wrap_fits. Qed.

Lemma Int_neg_fits a : Int.fits (- a) -> Int.neg a = - a.
Proof. apply Int_wrap_fits. Qed.

Lemma Int_div_nonneg a b : 0 <= a -> 0 < b -> Int.fits a -> Int.div a b = a `div` b.
Proof.
  intros Ha Hb Hfit. unfold Int.div. rewrite Z.quot_div_nonneg by lia.
  apply Int_wrap_fits. unfold Int.fits, Int.INT_MIN, Int.INT_MAX in *.
  assert (0 <= a `div` b) by (apply Z.div_pos; lia).
  assert (a `div` b <= a) by (apply Z.div_le_upper_bound; nia).
  lia.
Qed.

Lemma shape_ok_fits H W :
  shape_ok H W ->
  1 <= H /\ 1 <= W /\ Int.fits (H + 15) /\ Int.fits (W + 15) /\ Int.fits (H * W).
Proof.
  unfold shape_ok, Int.fits, Int.INT_MIN, Int.INT_MAX. intros (? & ? & ? & ? & ?).
  repeat split; nia.
Qed.

(** ** The execution grid *)

Lemma ceil_div_spec a b : 0 < b -> b * (ceil_div a b - 1) < a <= b * ceil_div a b.
Proof.
  intros Hb. unfold ceil_div.
  pose proof (Z.div_mod (- a) b ltac:(lia)) as Hdm.
  pose proof (Z.mod_pos_bound (- a) b Hb). nia.
Qed.

Lemma ceil_div_16 n : 0 <= n -> ceil_div n 16 = (n + 15) `div` 16.
Proof.
  intros Hn. unfold ceil_div.
  pose proof (Z.div_mod (- n) 16 ltac:(lia)).
  pose proof (Z.mod_pos_bound (- n) 16 ltac:(lia)).
  pose proof (Z.div_mod (n + 15) 16 ltac:(lia)).
  pose proof (Z.mod_pos_bound (n + 15) 16 ltac:(lia)).
  lia.
Qed.

Lemma plan_grid_eq H W :
  1 <= H -> 1 <= W -> Int.fits (H + 15) -> Int.fits (W + 15) ->
  plan_grid H W = Dim3 (ceil_div W 16) (ceil_div H 16) 1.
Proof.
  intros HH HW HfH HfW. unfold plan_grid.
  rewrite !Int_add_fits by done. rewrite !Int_div_nonneg by (done || lia).
  rewrite !ceil_div_16 by lia.
  unfold Int.fits, Int.INT_MIN, Int.INT_MAX in *.
  assert (Hdiv : forall n, 0 <= n -> 0 <= n `div` 16 <= n).
  { intros n Hn. split; [apply Z.div_pos; lia | apply Z.div_le_upper_bound; lia]. }
  pose proof (Hdiv (W + 15) ltac:(lia)). pose proof (Hdiv (H + 15) ltac:(lia)).
  rewrite !UInt_wrap_small; [done | |]; change (2 ^ 32) with 4294967296; lia.
Qed.

Lemma elem_of_indices i d :
  i ∈ indices d <->
  0 <= dx i < dx d /\ 0 <= dy i < dy d /\ 0 <= dz i < dz d.
Proof.
  unfold indices. destruct i as [x y z]; simpl. split.
  - intros Hin.
    apply list_elem_of_bind in Hin as (z' & Hin & Hz).
    apply list_elem_of_bind in Hin as (y' & Hin & Hy).
    apply list_elem_of_bind in Hin as (x' & Hin & Hx).
    apply list_elem_of_singleton in Hin.
    apply elem_of_seqZ in Hx, Hy, Hz. simplify_eq. lia.
  - intros (Hx & Hy & Hz).
    apply list_elem_of_bind. exists z. split; [|apply elem_of_seqZ; lia].
    apply list_elem_of_bind. exists y. split; [|apply elem_of_seqZ; lia].
    apply list_elem_of_bind. exists x. split; [|apply elem_of_seqZ; lia].
    by apply list_elem_of_singleton.
Qed.

Lemma elem_of_grid_workers b t gridDim blockDim :
  (b, t) ∈ grid_workers gridDim blockDim <->
  b ∈ indices gridDim /\ t ∈ indices blockDim.
Proof.
  unfold grid_workers. split.
  - intros Hin.
    apply list_elem_of_bind in Hin as (b' & Hin & Hb).
    apply list_elem_of_bind in Hin as (t' & Hin & Ht).
    apply list_elem_of_singleton in Hin. by simplify_eq.
  - intros [Hb Ht].
    apply list_elem_of_bind. exists b. split; [|done].
    apply list_elem_of_bind. exists t. split; [|done].
    by apply list_elem_of_singleton.
Qed.

(** The coordinate of a worker whose index computation does not overflow. *)
Lemma worker_row_eq blockDim blockIdx threadIdx :
  0 <= dy blockIdx -> 0 <= dy blockDim -> 0 <= dy threadIdx ->
  dy blockIdx * dy blockDim + dy threadIdx <= Int.INT_MAX ->
  worker_row blockDim blockIdx threadIdx = dy blockIdx * dy blockDim + dy threadIdx.
Proof.
  intros Hb Hd Ht Hmax. unfold worker_row, UInt.add, UInt.mul, Int.INT_MAX in *.
  assert (0 <= dy blockIdx * dy blockDim) by nia.
  rewrite (UInt_wrap_small (_ * _)) by (change (2 ^ 32) with 4294967296; lia).
  rewrite UInt_wrap_small by (change (2 ^ 32) with 4294967296; lia).
  apply Int_wrap_fits. unfold Int.fits, Int.INT_MIN, Int.INT_MAX. lia.
Qed.

Lemma worker_col_eq blockDim blockIdx threadIdx :
  0 <= dx blockIdx -> 0 <= dx blockDim -> 0 <= dx threadIdx ->
  dx blockIdx * dx blockDim + dx threadIdx <= Int.INT_MAX ->
  worker_col blockDim blockIdx threadIdx = dx blockIdx * dx blockDim + dx threadIdx.
Proof.
  intros Hb Hd Ht Hmax. unfold worker_col, UInt.add, UInt.mul, Int.INT_MAX in *.
  assert (0 <= dx blockIdx * dx blockDim) by nia.
  rewrite (UInt_wrap_small (_ * _)) by (change (2 ^ 32) with 4294967296; lia).
  rewrite UInt_wrap_small by (change (2 ^ 32) with 4294967296; lia).
  apply Int_wrap_fits. unfold Int.fits, Int.INT_MIN, Int.INT_MAX. lia.
Qed.

(** Every worker of the planned grid has a coordinate that is not negative. *)
Lemma grid_worker_coords H W blockIdx threadIdx :
  1 <= H -> 1 <= W -> Int.fits (H + 15) -> Int.fits (W + 15) ->
  (blockIdx, threadIdx) ∈ grid_workers (plan_grid H W) blockDim16 ->
  worker_row blockDim16 blockIdx threadIdx = dy blockIdx * 16 + dy threadIdx /\
  worker_col blockDim16 blockIdx threadIdx = dx blockIdx * 16 + dx threadIdx /\
  0 <= dy blockIdx * 16 + dy threadIdx < H + 15 /\
  0 <= dx blockIdx * 16 + dx threadIdx < W + 15.
Proof.
  intros HH HW HfH HfW Hin.
  apply elem_of_grid_workers in Hin as [Hb Ht].
  rewrite plan_grid_eq in Hb by done.
  apply elem_of_indices in Hb, Ht. simpl in Hb, Ht.
  rewrite !ceil_div_16 in Hb by lia.
  pose proof (Z.div_mod (H + 15) 16 ltac:(lia)).
  pose proof (Z.mod_pos_bound (H + 15) 16 ltac:(lia)).
  pose proof (Z.div_mod (W + 15) 16 ltac:(lia)).
  pose proof (Z.mod_pos_bound (W + 15) 16 ltac:(lia)).
  unfold Int.fits, Int.INT_MIN, Int.INT_MAX in *.
  rewrite worker_row_eq, worker_col_eq by (simpl; unfold Int.INT_MAX; lia).
  simpl. lia.
Qed.

(** Every coordinate of the matrix is the coordinate of a worker. *)
Lemma grid_covers H W row col :
  1 <= H -> 1 <= W -> Int.fits (H + 15) -> Int.fits (W + 15) ->
  0 <= row < H -> 0 <= col < W ->
  exists blockIdx threadIdx,
    (blockIdx, threadIdx) ∈ grid_workers (plan_grid H W) blockDim16 /\
    worker_row blockDim16 blockIdx threadIdx = row /\
    worker_col blockDim16 blockIdx threadIdx = col.
Proof.
  intros HH HW HfH HfW Hrow Hcol.
  pose proof (Z.div_mod row 16 ltac:(lia)).
  pose proof (Z.mod_pos_bound row 16 ltac:(lia)).
  pose proof (Z.div_mod col 16 ltac:(lia)).
  pose proof (Z.mod_pos_bound col 16 ltac:(lia)).
  pose proof (ceil_div_spec W 16 ltac:(lia)).
  pose proof (ceil_div_spec H 16 ltac:(lia)).
  assert (Hin : (Dim3 (col `div` 16) (row `div` 16) 0,
                 Dim3 (col `mod` 16) (row `mod` 16) 0)
                ∈ grid_workers (plan_grid H W) blockDim16).
  { apply elem_of_grid_workers. rewrite plan_grid_eq by done.
    split; apply elem_of_indices; simpl; lia. }
  eexists _, _. split; [exact Hin|].
  apply grid_worker_coords in Hin as (Hr & Hc & _); [|done..].
  rewrite Hr, Hc. simpl. lia.
Qed.

(** C4. For [H, W >= 1] (with [H + 15] and [W + 15] in the range of [int],
    the type the planner computes in) and the 16x16 worker tile, the planner
    returns the grid (ceil(W/16), ceil(H/16)), the least numbers of tiles whose
    16-fold reaches [W] and [H]; every output coordinate of [0,H) x [0,W) is
    the coordinate of a worker of that grid.  [plan_grid] is a function of
    [(H, W)] alone. *)
Theorem plan_grid_ceil_covers H W :
  1 <= H -> 1 <= W -> Int.fits (H + 15) -> Int.fits (W + 15) ->
  plan_grid H W = Dim3 (ceil_div W 16) (ceil_div H 16) 1 /\
  16 * (ceil_div W 16 - 1) < W <= 16 * ceil_div W 16 /\
  16 * (ceil_div H 16 - 1) < H <= 16 * ceil_div H 16 /\
  forall row col, 0 <= row < H -> 0 <= col < W ->
    exists blockIdx threadIdx,
      (blockIdx, threadIdx) ∈ grid_workers (plan_grid H W) blockDim16 /\
      worker_row blockDim16 blockIdx threadIdx = row /\
      worker_col blockDim16 blockIdx threadIdx = col.
Proof.
  intros HH HW HfH HfW.
  split; [by apply plan_grid_eq|].
  split; [apply ceil_div_spec; lia|].
  split; [apply ceil_div_spec; lia|].
  intros row col Hrow Hcol. by apply grid_covers.
Qed.

Lemma plan_grid_ceil_covers_witness :
  plan_grid 3 40 = Dim3 3 1 1 /\
  exists blockIdx threadIdx,
    (blockIdx, threadIdx) ∈ grid_workers (plan_grid 3 40) blockDim16 /\
    worker_row blockDim16 blockIdx threadIdx = 2 /\
    worker_col blockDim16 blockIdx threadIdx = 39.
Proof.
  destruct (plan_grid_ceil_covers 3 40) as (Hg & _ & _ & Hcov);
    [lia | lia | unfold Int.fits, Int.INT_MIN, Int.INT_MAX; lia
     | unfold Int.fits, Int.INT_MIN, Int.INT_MAX; lia |].
  split; [reflexivity|]. apply Hcov; lia.
Defined.

(** ** Loops *)

(** A loop whose body cannot fault computes a left fold. *)
Lemma for_each_done {S} (body : Z -> S -> result S) (g : S -> Z -> S) l s :
  (forall i s, i ∈ l -> body i s = Done (g s i)) ->
  for_each body l s = Done (foldl g s l).
Proof.
  revert s. induction l as [|i l IH]; intros s Hbody; simpl; [done|].
  rewrite Hbody by left. simpl. apply IH. intros j s' Hj. apply Hbody. by right.
Qed.

(** A fault of a loop is a fault of one of its iterations. *)
Lemma for_each_fault {S} (body : Z -> S -> result S) l s acc :
  for_each body l s = Fault acc ->
  exists i s', i ∈ l /\ body i s' = Fault acc.
Proof.
  revert s. induction l as [|i l IH]; intros s; simpl; [done|].
  destruct (body i s) as [s'|acc'] eqn:Hb; simpl.
  - intros Hf. destruct (IH _ Hf) as (j & s'' & Hj & Hbj).
    exists j, s''. split; [by right | done].
  - intros [= ->]. exists i, s. split; [by left | done].
Qed.

(** A property of the accumulator kept by every iteration holds at the end. *)
Lemma for_each_invariant {S} (P : S -> Prop) (body : Z -> S -> result S) l s s' :
  (forall i s s', i ∈ l -> P s -> body i s = Done s' -> P s') ->
  P s -> for_each body l s = Done s' -> P s'.
Proof.
  revert s. induction l as [|i l IH]; intros s Hstep Hs; simpl.
  - by intros [= <-].
  - destruct (body i s) as [s1|acc] eqn:Hb; simpl; [|done].
    apply IH.
    + intros j t t' Hj. apply Hstep. by right.
    + eapply Hstep; [by left | done..].
Qed.

(** ** One worker *)

Section KernelFacts.
Context {F : Type} {SF : Scalar F}.
Implicit Types (input filter output : list F) (H W R row col : Z).

Lemma store_in_bounds output i (v : F) :
  0 <= i < Z.of_nat (length output) ->
  store output i v = Done (<[Z.to_nat i := v]> output).
Proof.
  intros Hi. unfold store.
  destruct (Z.leb_spec 0 i); [|lia]. destruct (Z.ltb_spec i (Z.of_nat (length output))); [|lia].
  done.
Qed.

(** A row-major index of an in-range coordinate is below [H * W]. *)
Lemma flat_index_bounds H W row col :
  0 <= row < H -> 0 <= col < W -> 0 <= row * W + col < H * W.
Proof. intros. nia. Qed.

Lemma flat_index_int H W row col :
  0 <= row < H -> 0 <= col < W -> Int.fits (H * W) ->
  Int.add (Int.mul row W) col = row * W + col.
Proof.
  intros Hrow Hcol Hfit. pose proof (flat_index_bounds H W row col Hrow Hcol).
  assert (0 <= row * W <= row * W + col) by nia.
  unfold Int.fits, Int.INT_MIN, Int.INT_MAX in *.
  rewrite Int_mul_fits by (unfold Int.fits, Int.INT_MIN, Int.INT_MAX; lia).
  apply Int_add_fits. unfold Int.fits, Int.INT_MIN, Int.INT_MAX; lia.
Qed.

Lemma load_fault (buf : list F) what i acc :
  load buf what i = Fault acc -> acc = what i.
Proof.
  unfold load. destruct (0 <=? i); [|congruence].
  destruct (buf !! Z.to_nat i); congruence.
Qed.

(** Whatever stops the window sum is a read. *)
Lemma tap_fault input filter H W R row col pad i j sum acc :
  tap input filter H W R row col pad i j sum = Fault acc ->
  exists k, acc = RdInput k \/ acc = RdFilter k.
Proof.
  unfold tap. case_match; [|done].
  destruct (load input _ _) as [x|a] eqn:Hx; simpl.
  - destruct (load filter _ _) as [f|a] eqn:Hf; simpl; [done|].
    intros [= <-]. apply load_fault in Hf. eauto.
  - intros [= <-]. apply load_fault in Hx. eauto.
Qed.

Lemma window_sum_fault input filter H W R row col acc :
  window_sum input filter H W R row col = Fault acc ->
  exists k, acc = RdInput k \/ acc = RdFilter k.
Proof.
  unfold window_sum, for_range. intros Hf.
  apply for_each_fault in Hf as (i & s & _ & Hf).
  apply for_each_fault in Hf as (j & s' & _ & Hf).
  by apply tap_fault in Hf.
Qed.

(** The guard [row < H && col < W] fails: the worker returns at once. *)
Lemma conv2d_kernel_outside input filter output H W R blockDim blockIdx threadIdx :
  ~ (worker_row blockDim blockIdx threadIdx < H /\
     worker_col blockDim blockIdx threadIdx < W) ->
  conv2d_kernel input filter output H W R blockDim blockIdx threadIdx = Done output.
Proof.
  intros Hout. unfold conv2d_kernel.
  destruct (Z.ltb_spec (worker_row blockDim blockIdx threadIdx) H);
    destruct (Z.ltb_spec (worker_col blockDim blockIdx threadIdx) W);
    simpl; try done. lia.
Qed.

(** The guard holds: the worker sums its window and stores once. *)
Lemma conv2d_kernel_inside input filter output H W R blockDim blockIdx threadIdx :
  let row := worker_row blockDim blockIdx threadIdx in
  let col := worker_col blockDim blockIdx threadIdx in
  0 <= row < H -> 0 <= col < W -> Int.fits (H * W) ->
  length output = Z.to_nat (H * W) ->
  conv2d_kernel input filter output H W R blockDim blockIdx threadIdx =
    (sum ← window_sum input filter H W R row col;
     Done (<[Z.to_nat (row * W + col) := sum]> output)).
Proof.
  intros row col Hrow Hcol Hfit Hlen. unfold conv2d_kernel. fold row col.
  destruct (Z.ltb_spec row H); [|lia]. destruct (Z.ltb_spec col W); [|lia].
  simpl. rewrite (flat_index_int H W) by done.
  destruct (window_sum input filter H W R row col) as [sum|acc]; [|done].
  simpl. apply store_in_bounds.
  pose proof (flat_index_bounds H W row col Hrow Hcol). lia.
Qed.

(** C5. For [H, W >= 1] (dimensions the index arithmetic can hold, see
    [shape_ok]) and every worker of the planned grid: a worker whose
    coordinate is outside [0,H) x [0,W) does no work and returns the output
    buffer as it found it; a worker inside makes one store, at index
    [row * W + col], which is below [H * W]; no store falls outside the
    output buffer. *)
Theorem conv2d_kernel_guarded input filter output H W R blockIdx threadIdx :
  shape_ok H W -> length output = Z.to_nat (H * W) ->
  (blockIdx, threadIdx) ∈ grid_workers (plan_grid H W) blockDim16 ->
  let row := worker_row blockDim16 blockIdx threadIdx in
  let col := worker_col blockDim16 blockIdx threadIdx in
  let worker := conv2d_kernel input filter output H W R blockDim16 blockIdx threadIdx in
  (~ (0 <= row < H /\ 0 <= col < W) -> worker = Done output) /\
  (0 <= row < H /\ 0 <= col < W ->
     0 <= row * W + col < H * W /\
     worker = (sum ← window_sum input filter H W R row col;
               Done (<[Z.to_nat (row * W + col) := sum]> output))) /\
  (forall i, worker <> Fault (WrOutput i)).
Proof.
  intros Hshape Hlen Hin row col run.
  destruct (shape_ok_fits H W Hshape) as (HH & HW & HfH & HfW & Hfit).
  destruct (grid_worker_coords H W blockIdx threadIdx) as (Hr & Hc & Hrb & Hcb);
    [done..|].
  fold row in Hr. fold col in Hc.
  assert (Hout : ~ (0 <= row < H /\ 0 <= col < W) -> run = Done output).
  { intros Hout. apply conv2d_kernel_outside. fold row col. lia. }
  assert (Hins : 0 <= row < H /\ 0 <= col < W ->
     run = (sum ← window_sum input filter H W R row col;
            Done (<[Z.to_nat (row * W + col) := sum]> output))).
  { intros [Hrow Hcol]. by apply conv2d_kernel_inside. }
  split; [done|]. split.
  - intros [Hrow Hcol]. split; [by apply flat_index_bounds | by apply Hins].
  - intros i Hfault.
    destruct (decide (0 <= row < H /\ 0 <= col < W)) as [Hin'|Hout'].
    + rewrite (Hins Hin') in Hfault.
      destruct (window_sum input filter H W R row col) as [sum|acc] eqn:Hsum;
        simpl in Hfault; [done|].
      injection Hfault as ->. apply window_sum_fault in Hsum as (k & [?|?]); done.
    + by rewrite (Hout Hout') in Hfault.
Qed.
End KernelFacts.

Lemma conv2d_kernel_guarded_witness :
  conv2d_kernel [qz 1; qz 2] [qz 1] [qz 7; qz 7] 1 2 1 blockDim16
    (Dim3 0 0 0) (Dim3 2 0 0) = Done [qz 7; qz 7] /\
  conv2d_kernel [qz 1; qz 2] [qz 1] [qz 7; qz 7] 1 2 1 blockDim16
    (Dim3 0 0 0) (Dim3 0 0 0) = Done [qz 1; qz 7].
Proof.
  split.
  - destruct (conv2d_kernel_guarded (F := Qc) [qz 1; qz 2] [qz 1] [qz 7; qz 7]
                1 2 1 (Dim3 0 0 0) (Dim3 2 0 0)) as (Hout & _ & _).
    + unfold shape_ok, Int.INT_MAX. lia.
    + reflexivity.
    + change (plan_grid 1 2) with (Dim3 1 1 1).
      apply elem_of_grid_workers. split; apply elem_of_indices; simpl; lia.
    + apply Hout. vm_compute. intros [_ [_ Hlt]]. discriminate Hlt.
  - destruct (conv2d_kernel_guarded (F := Qc) [qz 1; qz 2] [qz 1] [qz 7; qz 7]
                1 2 1 (Dim3 0 0 0) (Dim3 0 0 0)) as (_ & Hins & _).
    + unfold shape_ok, Int.INT_MAX. lia.
    + reflexivity.
    + change (plan_grid 1 2) with (Dim3 1 1 1).
      apply elem_of_grid_workers. split; apply elem_of_indices; simpl; lia.
    + change (worker_row blockDim16 (Dim3 0 0 0) (Dim3 0 0 0)) with 0 in Hins.
      change (worker_col blockDim16 (Dim3 0 0 0) (Dim3 0 0 0)) with 0 in Hins.
      destruct Hins as [_ Heq]; [lia|]. rewrite Heq.
      qc_eval.
Defined.

(** ** The window sum in closed form *)

Global Instance Qc_exact : ExactArith Qc.
Proof.
  split; simpl; intros; try ring.
Qed.

Section WindowSum.
Context {F : Type} {SF : Scalar F}.
Implicit Types (input filter output : list F) (H W R row col : Z).

Lemma load_at2 (m : list F) what W r c :
  0 <= r * W + c < Z.of_nat (length m) ->
  load m what (r * W + c) = Done (at2 m W r c).
Proof.
  intros Hi. unfold load, at2. destruct (Z.leb_spec 0 (r * W + c)); [|lia].
  destruct (lookup_lt_is_Some_2 m (Z.to_nat (r * W + c))) as [v Hv]; [lia|].
  by rewrite Hv.
Qed.

Lemma odd_half R : 1 <= R -> Z.odd R = true -> 0 <= Z.quot R 2 /\ R = 2 * Z.quot R 2 + 1.
Proof.
  intros HR Hodd. rewrite Z.quot_div_nonneg by lia.
  pose proof (Z.div_mod R 2 ltac:(lia)) as Hdm.
  rewrite Zmod_odd, Hodd in Hdm. split; [|lia].
  apply Z.div_pos; lia.
Qed.

Lemma pad_int R : 1 <= R -> R <= Int.INT_MAX -> Int.div R 2 = Z.quot R 2.
Proof.
  intros HR Hmax. rewrite Int_div_nonneg, Z.quot_div_nonneg by
    (try lia; unfold Int.fits, Int.INT_MIN; lia). done.
Qed.

(** One tap, when no index computation overflows and the column test
    [c < H] implies [c < W]. *)
Lemma tap_closed input filter H W R row col i j (sum : F) :
  shape_ok H W -> window_ok H W R -> H <= W ->
  length input = Z.to_nat (H * W) -> length filter = Z.to_nat (R * R) ->
  0 <= row < H -> 0 <= col < W ->
  - Z.quot R 2 <= i <= Z.quot R 2 -> - Z.quot R 2 <= j <= Z.quot R 2 ->
  tap input filter H W R row col (Z.quot R 2) i j sum =
    Done (if (0 <=? row + i) && (row + i <? H) && (0 <=? col + j) && (col + j <? H)
          then fadd sum (fmul (at2 input W (row + i) (col + j))
                              (at2 filter R (i + Z.quot R 2) (j + Z.quot R 2)))
          else sum).
Proof.
  intros (HH & HW & HHW & _ & _) (HR & Hodd & HRR & HHR & HWR) Hle Hin Hfl Hrow Hcol Hi Hj.
  destruct (odd_half R HR Hodd) as [Hpad HR2]. set (pad := Z.quot R 2) in *.
  unfold tap, Int.INT_MAX in *.
  assert (Hfits : forall z, -2147483648 <= z <= 2147483647 -> Int.fits z)
    by (intros z; unfold Int.fits, Int.INT_MIN, Int.INT_MAX; lia).
  rewrite (Int_add_fits row i), (Int_add_fits col j) by (apply Hfits; lia).
  destruct ((0 <=? row + i) && (row + i <? H) && (0 <=? col + j) && (col + j <? H))
    eqn:Hvalid; [|done].
  apply andb_prop in Hvalid as [Hvalid Hc2]. apply andb_prop in Hvalid as [Hvalid Hc1].
  apply andb_prop in Hvalid as [Hr1 Hr2].
  apply Z.leb_le in Hr1, Hc1. apply Z.ltb_lt in Hr2, Hc2.
  rewrite (flat_index_int H W) by (try lia; apply Hfits; lia).
  rewrite (Int_add_fits i pad), (Int_add_fits j pad) by (apply Hfits; lia).
  rewrite (flat_index_int R R) by (try lia; apply Hfits; lia).
  pose proof (flat_index_bounds H W (row + i) (col + j) ltac:(lia) ltac:(lia)).
  pose proof (flat_index_bounds R R (i + pad) (j + pad) ltac:(lia) ltac:(lia)).
  rewrite load_at2 by lia. simpl. rewrite load_at2 by lia. done.
Qed.

(** The kernel's sum, when no read leaves its buffer: the sum of the
    contract with the column test against [H]. *)
Lemma window_sum_closed input filter H W R row col :
  shape_ok H W -> window_ok H W R -> H <= W ->
  length input = Z.to_nat (H * W) -> length filter = Z.to_nat (R * R) ->
  0 <= row < H -> 0 <= col < W ->
  window_sum input filter H W R row col =
    Done (conv_sum H input filter H W R row col).
Proof.
  intros Hshape Hwin Hle Hin Hfl Hrow Hcol.
  pose proof Hwin as (HR & Hodd & HRR & _).
  destruct (odd_half R HR Hodd) as [Hpad HR2].
  unfold window_sum, for_range, conv_sum.
  rewrite pad_int by (unfold Int.INT_MAX in *; nia).
  set (pad := Z.quot R 2) in *.
  rewrite Int_neg_fits
    by (unfold Int.fits, Int.INT_MIN, Int.INT_MAX in *; nia).
  replace (pad - - pad + 1) with (2 * pad + 1) by lia.
  apply for_each_done. intros i sum Hi. apply elem_of_seqZ in Hi.
  apply for_each_done. intros j sum' Hj. apply elem_of_seqZ in Hj.
  apply tap_closed; try done; fold pad; lia.
Qed.

(** On a square matrix the kernel's sum is the sum of the contract. *)
Lemma conv_sum_square input filter H R row col :
  conv_sum H input filter H H R row col = conv_spec input filter H H R row col.
Proof. reflexivity. Qed.

Lemma conv_spec_conv_sum input filter H W R row col :
  conv_spec input filter H W R row col = conv_sum W input filter H W R row col.
Proof. reflexivity. Qed.
End WindowSum.

(** ** The whole grid *)

Section LaunchFacts.
Context {F : Type} {SF : Scalar F}.
Variables (input filter : list F) (H W R : Z).
Hypothesis Hshape : shape_ok H W.

Local Abbreviation pixel := (window_sum input filter H W R).

Lemma grid_nonneg w : w ∈ grid_workers (plan_grid H W) blockDim16 -> nonneg w.
Proof.
  destruct Hshape as (HH & HW & HHW & HH15 & HW15). destruct w as [b t]. intros Hin.
  destruct (grid_worker_coords H W b t) as (Hr & Hc & Hrb & Hcb);
    [done | done | unfold Int.fits, Int.INT_MIN, Int.INT_MAX in *; lia..| done |].
  unfold nonneg, row_of, col_of; simpl. lia.
Qed.

Lemma kernel_step output w :
  nonneg w -> length output = Z.to_nat (H * W) ->
  conv2d_kernel input filter output H W R blockDim16 w.1 w.2 =
    if decide (inside H W w)
    then sum ← pixel (row_of w) (col_of w);
         Done (<[Z.to_nat (row_of w * W + col_of w) := sum]> output)
    else Done output.
Proof.
  destruct Hshape as (HH & HW & HHW & HH15 & HW15).
  intros [Hr Hc] Hlen. case_decide as Hin.
  - destruct Hin. unfold row_of, col_of in *. apply conv2d_kernel_inside; [done..| |done].
    unfold Int.fits, Int.INT_MIN, Int.INT_MAX in *; nia.
  - apply conv2d_kernel_outside. unfold inside, row_of, col_of in *. lia.
Qed.

(** An in-range coordinate is recovered from its row-major index. *)
Lemma unflatten r c : 0 <= r -> 0 <= c < W -> (r * W + c) `div` W = r /\ (r * W + c) `mod` W = c.
Proof.
  intros Hr Hc. split.
  - rewrite Z.div_add_l by lia. rewrite Z.div_small by lia. lia.
  - rewrite Z.add_comm, Z.mod_add by lia. by apply Z.mod_small.
Qed.

Lemma launch_length sched output output' :
  Forall nonneg sched -> length output = Z.to_nat (H * W) ->
  launch sched input filter output H W R blockDim16 = Done output' ->
  length output' = Z.to_nat (H * W).
Proof.
  intros Hnn. revert output. induction Hnn as [|w sched Hw Hnn IH]; intros output Hlen; simpl.
  - by intros [= <-].
  - rewrite kernel_step by done. case_decide.
    + destruct (pixel (row_of w) (col_of w)) as [sum|acc]; simpl; [|done].
      apply IH. by rewrite length_insert.
    + simpl. by apply IH.
Qed.

(** A slot no worker of the schedule stores into keeps its content. *)
Lemma launch_frame sched output output' k :
  Forall nonneg sched -> length output = Z.to_nat (H * W) ->
  launch sched input filter output H W R blockDim16 = Done output' ->
  0 <= k ->
  (forall w, w ∈ sched -> inside H W w -> row_of w * W + col_of w <> k) ->
  output' !! Z.to_nat k = output !! Z.to_nat k.
Proof.
  intros Hnn. revert output.
  induction Hnn as [|w sched Hw Hnn IH]; intros output Hlen; simpl.
  - by intros [= <-].
  - rewrite kernel_step by done. intros Hrun Hk Hne. case_decide as Hin.
    + destruct (pixel (row_of w) (col_of w)) as [sum|acc]; simpl in Hrun; [|done].
      rewrite (IH _ ltac:(by rewrite length_insert) Hrun Hk).
      * apply list_lookup_insert_ne.
        pose proof (Hne w ltac:(left) Hin). destruct Hin. nia.
      * intros w' Hw'. apply Hne. by right.
    + simpl in Hrun. apply (IH _ Hlen Hrun Hk). intros w' Hw'. apply Hne. by right.
Qed.

(** A slot some worker stores into holds the window sum of its coordinate. *)
Lemma launch_written sched output output' k v :
  Forall nonneg sched -> length output = Z.to_nat (H * W) ->
  launch sched input filter output H W R blockDim16 = Done output' ->
  (exists w, w ∈ sched /\ inside H W w /\ row_of w * W + col_of w = k) ->
  pixel (k `div` W) (k `mod` W) = Done v ->
  output' !! Z.to_nat k = Some v.
Proof.
  destruct Hshape as (HH & HW & HHW & HH15 & HW15).
  intros Hnn. revert output.
  induction Hnn as [|w sched Hw Hnn IH]; intros output Hlen; simpl.
  - intros _ (w & Hin & _). by apply elem_of_nil in Hin.
  - rewrite kernel_step by done. intros Hrun Hex Hv.
    destruct (decide (Exists (fun w' => inside H W w' /\ row_of w' * W + col_of w' = k) sched))
      as [Hlater|Hnot]; rewrite Exists_exists in *.
    + case_decide.
      * destruct (pixel (row_of w) (col_of w)) as [sum|acc]; simpl in Hrun; [|done].
        apply (IH _ ltac:(by rewrite length_insert) Hrun Hlater Hv).
      * simpl in Hrun. apply (IH _ Hlen Hrun Hlater Hv).
    + destruct Hex as (w' & Hw' & Hin' & Hk').
      apply elem_of_cons in Hw' as [->|Hw']; [|destruct Hnot; eauto].
      rewrite decide_True in Hrun by done.
      destruct (unflatten (row_of w) (col_of w)) as [Hd Hm]; [destruct Hin'; lia..|].
      rewrite Hk' in Hd, Hm. rewrite Hd, Hm in Hv. rewrite Hv in Hrun. simpl in Hrun.
      assert (0 <= k < H * W) by (subst k; destruct Hin'; nia).
      rewrite (launch_frame sched _ output' k Hnn ltac:(by rewrite length_insert) Hrun)
        by (try lia; intros w'' ? ? ?; destruct Hnot; eauto).
      rewrite Hk'. apply list_lookup_insert_eq. lia.
Qed.

(** A run that ends has summed the window of every worker inside. *)
Lemma launch_pixels_done sched output output' w :
  Forall nonneg sched -> length output = Z.to_nat (H * W) ->
  launch sched input filter output H W R blockDim16 = Done output' ->
  w ∈ sched -> inside H W w ->
  exists v, pixel (row_of w) (col_of w) = Done v.
Proof.
  intros Hnn. revert output.
  induction Hnn as [|w' sched Hw' Hnn IH]; intros output Hlen; simpl.
  - intros _ Hin. by apply elem_of_nil in Hin.
  - rewrite kernel_step by done. intros Hrun Hin Hins.
    apply elem_of_cons in Hin as [->|Hin].
    + rewrite decide_True in Hrun by done.
      destruct (pixel (row_of w') (col_of w')) as [sum|acc]; [eauto | done].
    + case_decide.
      * destruct (pixel (row_of w') (col_of w')) as [sum|acc]; simpl in Hrun; [|done].
        apply (IH _ ltac:(by rewrite length_insert) Hrun Hin Hins).
      * simpl in Hrun. apply (IH _ Hlen Hrun Hin Hins).
Qed.

(** A run in which every window sum is defined ends. *)
Lemma launch_progress sched output :
  Forall nonneg sched -> length output = Z.to_nat (H * W) ->
  (forall w, w ∈ sched -> inside H W w ->
     exists v, pixel (row_of w) (col_of w) = Done v) ->
  exists output', launch sched input filter output H W R blockDim16 = Done output'.
Proof.
  intros Hnn. revert output.
  induction Hnn as [|w sched Hw Hnn IH]; intros output Hlen Hpix; simpl.
  - eauto.
  - rewrite kernel_step by done. case_decide as Hin.
    + destruct (Hpix w ltac:(left) Hin) as [v ->]. simpl.
      apply IH; [by rewrite length_insert|]. intros w' Hw'. apply Hpix. by right.
    + simpl. apply IH; [done|]. intros w' Hw'. apply Hpix. by right.
Qed.

(** The output of a run of the planned grid, in any order of its workers:
    slot [row * W + col] holds the window sum of [(row, col)]. *)
Lemma launch_done_iff sched output output' :
  sched ≡ₚ grid_workers (plan_grid H W) blockDim16 ->
  length output = Z.to_nat (H * W) ->
  launch sched input filter output H W R blockDim16 = Done output' <->
  length output' = Z.to_nat (H * W) /\
  forall row col, 0 <= row < H -> 0 <= col < W ->
    exists v, pixel row col = Done v /\
              output' !! Z.to_nat (row * W + col) = Some v.
Proof.
  intros Hperm Hlen.
  pose proof Hshape as (HH & HW & HHW & HH15 & HW15).
  assert (Hfit : Int.fits (H + 15) /\ Int.fits (W + 15))
    by (unfold Int.fits, Int.INT_MIN, Int.INT_MAX in *; lia).
  destruct Hfit as [HfH HfW].
  assert (Hnn : Forall nonneg sched).
  { apply Forall_forall. intros w Hw. apply grid_nonneg. by rewrite <- Hperm. }
  assert (Hcover : forall row col, 0 <= row < H -> 0 <= col < W ->
            exists w, w ∈ sched /\ inside H W w /\ row_of w = row /\ col_of w = col).
  { intros row col Hrow Hcol.
    destruct (grid_covers H W row col) as (b & t & Hin & Hr & Hc); [done..|].
    exists (b, t). rewrite Hperm. unfold inside, row_of, col_of. simpl.
    rewrite Hr, Hc. done. }
  assert (Hfwd : forall out', launch sched input filter output H W R blockDim16 = Done out' ->
            length out' = Z.to_nat (H * W) /\
            forall row col, 0 <= row < H -> 0 <= col < W ->
              exists v, pixel row col = Done v /\
                        out' !! Z.to_nat (row * W + col) = Some v).
  { intros out' Hrun. split; [by eapply launch_length|].
    intros row col Hrow Hcol.
    destruct (Hcover row col Hrow Hcol) as (w & Hw & Hins & Hr & Hc).
    destruct (launch_pixels_done sched output out' w Hnn Hlen Hrun Hw Hins) as [v Hv].
    rewrite Hr, Hc in Hv. exists v. split; [done|].
    eapply launch_written; [done.. | |].
    - exists w. rewrite Hr, Hc. done.
    - destruct (unflatten row col) as [-> ->]; [lia..|done]. }
  split; [apply Hfwd|].
  intros [Hlen' Hspec].
  destruct (launch_progress sched output Hnn Hlen) as [out'' Hrun].
  { intros w Hw [Hr Hc]. destruct (Hspec _ _ Hr Hc) as (v & Hv & _). eauto. }
  rewrite Hrun. f_equal.
  destruct (Hfwd _ Hrun) as [Hlen'' Hspec''].
  apply list_eq. intros n.
  destruct (decide (n < Z.to_nat (H * W))%nat) as [Hn|Hn].
  - pose proof (Z.div_mod (Z.of_nat n) W ltac:(lia)) as Hdm.
    pose proof (Z.mod_pos_bound (Z.of_nat n) W ltac:(lia)) as Hmb.
    assert (0 <= Z.of_nat n `div` W < H) as Hdb.
    { split; [apply Z.div_pos; lia | apply Z.div_lt_upper_bound; lia]. }
    destruct (Hspec _ _ Hdb Hmb) as (v & Hv & Hl).
    destruct (Hspec'' _ _ Hdb Hmb) as (v' & Hv' & Hl').
    rewrite Hv in Hv'. injection Hv' as <-.
    replace (Z.to_nat (Z.of_nat n `div` W * W + Z.of_nat n `mod` W)) with n in Hl, Hl' by lia.
    congruence.
  - rewrite !lookup_ge_None_2 by lia. done.
Qed.
End LaunchFacts.

(** Two workers of the grid that store into the same slot are the same
    worker: the stores of a launch do not overlap. *)
Lemma grid_slots_disjoint H W w1 w2 :
  shape_ok H W ->
  w1 ∈ grid_workers (plan_grid H W) blockDim16 ->
  w2 ∈ grid_workers (plan_grid H W) blockDim16 ->
  inside H W w1 -> inside H W w2 ->
  row_of w1 * W + col_of w1 = row_of w2 * W + col_of w2 ->
  w1 = w2.
Proof.
  intros Hshape Hw1 Hw2 [Hr1 Hc1] [Hr2 Hc2] Heq.
  destruct (shape_ok_fits H W Hshape) as (HH & HW & HfH & HfW & _).
  destruct (unflatten W (row_of w1) (col_of w1)) as [Hd1 Hm1]; [lia..|].
  destruct (unflatten W (row_of w2) (col_of w2)) as [Hd2 Hm2]; [lia..|].
  rewrite Heq in Hd1, Hm1.
  assert (Hrow : row_of w1 = row_of w2) by congruence.
  assert (Hcol : col_of w1 = col_of w2) by congruence.
  destruct w1 as [b1 t1], w2 as [b2 t2]. unfold row_of, col_of in *. simpl in *.
  destruct (grid_worker_coords H W b1 t1) as (Er1 & Ec1 & _); [done..|].
  destruct (grid_worker_coords H W b2 t2) as (Er2 & Ec2 & _); [done..|].
  apply elem_of_grid_workers in Hw1 as [Hb1 Ht1], Hw2 as [Hb2 Ht2].
  rewrite plan_grid_eq in Hb1, Hb2 by done.
  apply elem_of_indices in Hb1, Ht1, Hb2, Ht2. simpl in Hb1, Ht1, Hb2, Ht2.
  destruct b1 as [bx1 by1 bz1], t1 as [tx1 ty1 tz1],
           b2 as [bx2 by2 bz2], t2 as [tx2 ty2 tz2]; simpl in *.
  assert (by1 = by2 /\ ty1 = ty2 /\ bx1 = bx2 /\ tx1 = tx2) as (-> & -> & -> & ->) by lia.
  assert (bz1 = bz2 /\ tz1 = tz2) as [-> ->] by lia.
  done.
Qed.

(** ** Determinism *)

(** The outcome of a run depends neither on the order of the workers nor on
    what the output buffer held before. *)
Lemma launch_same_outcome {F : Type} {SF : Scalar F}
    (input filter : list F) (H W R : Z)
    (sched1 sched2 : list (dim3 * dim3)) (output1 output2 : list F) :
  shape_ok H W ->
  sched1 ≡ₚ grid_workers (plan_grid H W) blockDim16 ->
  sched2 ≡ₚ grid_workers (plan_grid H W) blockDim16 ->
  length output1 = Z.to_nat (H * W) ->
  length output2 = Z.to_nat (H * W) ->
  same_outcome (launch sched1 input filter output1 H W R blockDim16)
               (launch sched2 input filter output2 H W R blockDim16).
Proof.
  intros Hshape Hp1 Hp2 Hl1 Hl2.
  assert (Hsame : forall o,
    launch sched1 input filter output1 H W R blockDim16 = Done o <->
    launch sched2 input filter output2 H W R blockDim16 = Done o).
  { intros o. rewrite (launch_done_iff input filter H W R Hshape sched1 output1 o Hp1 Hl1).
    by rewrite (launch_done_iff input filter H W R Hshape sched2 output2 o Hp2 Hl2). }
  destruct (launch sched1 input filter output1 H W R blockDim16) as [o1|a1];
    destruct (launch sched2 input filter output2 H W R blockDim16) as [o2|a2];
    simpl; [| | |done].
  - pose proof (proj1 (Hsame o1) eq_refl). congruence.
  - pose proof (proj1 (Hsame o1) eq_refl). congruence.
  - pose proof (proj2 (Hsame o2) eq_refl). congruence.
Qed.

(** ** The zero filter *)

Section ZeroFilter.
Context {F : Type} {SF : Scalar F} {EA : ExactArith F}.
Implicit Types (input filter output : list F) (H W R row col : Z).

Lemma load_elem_of (buf : list F) what i v : load buf what i = Done v -> v ∈ buf.
Proof.
  unfold load. destruct (0 <=? i); [|done].
  destruct (buf !! Z.to_nat i) as [x|] eqn:Hx; [|done].
  intros [= <-]. by eapply list_elem_of_lookup_2.
Qed.

Lemma window_sum_zero_filter input filter H W R row col v :
  Forall (fun x => x = f0) filter ->
  window_sum input filter H W R row col = Done v -> v = f0.
Proof.
  intros Hzero. unfold window_sum, for_range.
  apply (for_each_invariant (fun s => s = f0)); [|done].
  intros i s s' _ Hs. apply (for_each_invariant (fun s => s = f0)); [|done].
  intros j t t' _ ->. unfold tap. case_match; [|by intros [= <-]].
  destruct (load input _ _) as [x|]; simpl; [|done].
  destruct (load filter _ _) as [f|] eqn:Hf; simpl; [|done].
  apply load_elem_of in Hf. rewrite Forall_forall in Hzero.
  rewrite (Hzero f Hf). intros [= <-]. by rewrite fmul_0_r, fadd_0_l.
Qed.

(** Where no read leaves its buffer and over exact arithmetic, a filter of
    zeros gives an output of zeros: a run of the grid that ends leaves the
    output matrix all zeros; and it ends, on a well-formed problem (odd
    [R >= 1], buffers of [H * W] and [R * R] elements) with [H <= W]. *)
Lemma zero_filter_zero_output input filter output H W R sched :
  shape_ok H W ->
  sched ≡ₚ grid_workers (plan_grid H W) blockDim16 ->
  length output = Z.to_nat (H * W) ->
  Forall (fun x => x = f0) filter ->
  (forall output',
     launch sched input filter output H W R blockDim16 = Done output' ->
     output' = replicate (Z.to_nat (H * W)) f0) /\
  (window_ok H W R -> H <= W ->
   length input = Z.to_nat (H * W) -> length filter = Z.to_nat (R * R) ->
   launch sched input filter output H W R blockDim16 =
     Done (replicate (Z.to_nat (H * W)) f0)).
Proof.
  intros Hshape Hperm Hlen Hzero.
  pose proof (launch_done_iff input filter H W R Hshape sched output) as Hiff.
  assert (Hends : window_ok H W R -> H <= W ->
    length input = Z.to_nat (H * W) -> length filter = Z.to_nat (R * R) ->
    launch sched input filter output H W R blockDim16 =
      Done (replicate (Z.to_nat (H * W)) f0)).
  { intros Hwin Hle Hin Hfl. apply Hiff; [done..|].
    split; [by rewrite length_replicate|].
    intros row col Hrow Hcol.
    pose proof (window_sum_closed input filter H W R row col
                  Hshape Hwin Hle Hin Hfl Hrow Hcol) as Hsum.
    exists (conv_sum H input filter H W R row col). split; [done|].
    rewrite (window_sum_zero_filter _ _ _ _ _ _ _ _ Hzero Hsum).
    apply lookup_replicate_2.
    pose proof (flat_index_bounds H W row col Hrow Hcol). lia. }
  split; [|done].
  intros output' Hrun. apply (Hiff output' Hperm Hlen) in Hrun as [Hlen' Hspec].
  pose proof Hshape as (HH & HW & _).
  apply list_eq. intros n.
  destruct (decide (n < Z.to_nat (H * W))%nat) as [Hn|Hn].
  - pose proof (Z.div_mod (Z.of_nat n) W ltac:(lia)) as Hdm.
    pose proof (Z.mod_pos_bound (Z.of_nat n) W ltac:(lia)) as Hmb.
    assert (0 <= Z.of_nat n `div` W < H) as Hdb.
    { split; [apply Z.div_pos; lia | apply Z.div_lt_upper_bound; lia]. }
    destruct (Hspec _ _ Hdb Hmb) as (v & Hv & Hl).
    replace (Z.to_nat (Z.of_nat n `div` W * W + Z.of_nat n `mod` W)) with n in Hl by lia.
    rewrite Hl, (window_sum_zero_filter _ _ _ _ _ _ _ _ Hzero Hv).
    symmetry. by apply lookup_replicate_2.
  - rewrite !lookup_ge_None_2; [done | rewrite length_replicate; lia | lia].
Qed.
End ZeroFilter.

Lemma zero_filter_zero_output_witness :
  launch (grid_workers (plan_grid 2 3) blockDim16)
    [qz 1; qz 2; qz 3; qz 4; qz 5; qz 6] (replicate 9 (qz 0))
    [qz 7; qz 7; qz 7; qz 7; qz 7; qz 7] 2 3 3 blockDim16
  = Done (replicate 6 (qz 0)).
Proof.
  destruct (zero_filter_zero_output (F := Qc)
              [qz 1; qz 2; qz 3; qz 4; qz 5; qz 6] (replicate 9 (qz 0))
              [qz 7; qz 7; qz 7; qz 7; qz 7; qz 7] 2 3 3
              (grid_workers (plan_grid 2 3) blockDim16)) as [_ Hends].
  - unfold shape_ok, Int.INT_MAX. lia.
  - reflexivity.
  - reflexivity.
  - repeat constructor.
  - apply Hends.
    + unfold window_ok, Int.INT_MAX. repeat split; lia.
    + lia.
    + reflexivity.
    + reflexivity.
Defined.

(** ** Linearity *)

Section Linearity.
Context {F : Type} {SF : Scalar F} {EA : ExactArith F}.
Implicit Types (A B filter output : list F) (H W R row col : Z).

Lemma fadd_shuffle (a b p q : F) :
  fadd (fadd a b) (fadd p q) = fadd (fadd a p) (fadd b q).
Proof.
  rewrite (fadd_assoc (fadd a b) p q), <- (fadd_assoc a b p), (fadd_comm b p).
  by rewrite (fadd_assoc a p b), <- (fadd_assoc (fadd a p) b q).
Qed.

(** Three loops in step: what relates the three accumulators before an
    iteration relates them after it. *)
Lemma for_each_rel3 {S} (Rel : S -> S -> S -> Prop)
    (bodyA bodyB bodyC : Z -> S -> result S) l sA sB sC sA' sB' :
  (forall i a b c a' b', i ∈ l -> Rel a b c ->
     bodyA i a = Done a' -> bodyB i b = Done b' ->
     exists c', bodyC i c = Done c' /\ Rel a' b' c') ->
  Rel sA sB sC ->
  for_each bodyA l sA = Done sA' -> for_each bodyB l sB = Done sB' ->
  exists sC', for_each bodyC l sC = Done sC' /\ Rel sA' sB' sC'.
Proof.
  revert sA sB sC. induction l as [|i l IH]; intros sA sB sC Hstep Hrel; simpl.
  - intros [= <-] [= <-]. eauto.
  - destruct (bodyA i sA) as [a'|] eqn:Ha; simpl; [|done].
    destruct (bodyB i sB) as [b'|] eqn:Hb; simpl; [|done].
    destruct (Hstep i sA sB sC a' b' ltac:(left) Hrel Ha Hb) as (c' & -> & Hrel').
    simpl. apply IH; [|done]. intros j ? ? ? ? ? Hj. apply Hstep. by right.
Qed.

Lemma load_madd A B what i x y :
  load A what i = Done x -> load B what i = Done y ->
  load (madd A B) what i = Done (fadd x y).
Proof.
  unfold load, madd. destruct (0 <=? i); [|done].
  rewrite lookup_zip_with.
  destruct (A !! Z.to_nat i); [|done]. destruct (B !! Z.to_nat i); [|done].
  by intros [= <-] [= <-].
Qed.

Lemma tap_linear A B filter H W R row col pad i j a b a' b' :
  tap A filter H W R row col pad i j a = Done a' ->
  tap B filter H W R row col pad i j b = Done b' ->
  tap (madd A B) filter H W R row col pad i j (fadd a b) = Done (fadd a' b').
Proof.
  unfold tap. case_match; [|by intros [= <-] [= <-]].
  destruct (load A _ _) as [x|] eqn:Hx; simpl; [|done].
  destruct (load B _ _) as [y|] eqn:Hy; simpl;
    [|by destruct (load filter _ _)].
  rewrite (load_madd A B _ _ x y Hx Hy). simpl.
  destruct (load filter _ _) as [f|]; simpl; [|done].
  intros [= <-] [= <-]. by rewrite fmul_add_distr_r, fadd_shuffle.
Qed.

(** The window sum of [A + B] is the sum of the window sums of [A] and [B]. *)
Lemma window_sum_linear A B filter H W R row col a b :
  window_sum A filter H W R row col = Done a ->
  window_sum B filter H W R row col = Done b ->
  window_sum (madd A B) filter H W R row col = Done (fadd a b).
Proof.
  unfold window_sum, for_range.
  set (pad := Int.div R 2). set (l := seqZ (Int.neg pad) (pad - Int.neg pad + 1)).
  pose (inner X := fun (i : Z) (sum : F) =>
          for_each (fun j sum => tap X filter H W R row col pad i j sum) l sum).
  intros Ha Hb.
  destruct (for_each_rel3 (fun a b c => c = fadd a b)
              (inner A) (inner B) (inner (madd A B)) l f0 f0 f0 a b)
    as (c & Hc & ->); [| |exact Ha|exact Hb|exact Hc].
  - intros i sa sb sc sa' sb' _ -> Hia Hib.
    destruct (for_each_rel3 (fun a b c => c = fadd a b)
                (fun j sum => tap A filter H W R row col pad i j sum)
                (fun j sum => tap B filter H W R row col pad i j sum)
                (fun j sum => tap (madd A B) filter H W R row col pad i j sum)
                l sa sb (fadd sa sb) sa' sb')
      as (c & Hc & ->); [| |exact Hia|exact Hib|eauto]; [|done].
    intros j ta tb tc ta' tb' _ -> Hja Hjb. eexists. split; [|done].
    by apply tap_linear.
  - by rewrite fadd_0_l.
Qed.
(** Where no read leaves its buffer and over exact arithmetic, the
    convolution is additive: when the convolutions of [A] and of [B] end
    with outputs [outA] and [outB], the convolution of the elementwise sum
    [A + B] ends with the elementwise sum [outA + outB]; and the three
    end, for a filter of odd side [R] when [H <= W].  Each run has its own
    schedule and its own fresh output buffer. *)
Lemma conv_linear A B filter H W R schedA schedB schedAB outA0 outB0 outAB0 :
  shape_ok H W ->
  length A = Z.to_nat (H * W) -> length B = Z.to_nat (H * W) ->
  schedA ≡ₚ grid_workers (plan_grid H W) blockDim16 ->
  schedB ≡ₚ grid_workers (plan_grid H W) blockDim16 ->
  schedAB ≡ₚ grid_workers (plan_grid H W) blockDim16 ->
  length outA0 = Z.to_nat (H * W) -> length outB0 = Z.to_nat (H * W) ->
  length outAB0 = Z.to_nat (H * W) ->
  (forall outA outB,
     launch schedA A filter outA0 H W R blockDim16 = Done outA ->
     launch schedB B filter outB0 H W R blockDim16 = Done outB ->
     launch schedAB (madd A B) filter outAB0 H W R blockDim16 =
       Done (madd outA outB)) /\
  (window_ok H W R -> H <= W -> length filter = Z.to_nat (R * R) ->
   exists outA outB,
     launch schedA A filter outA0 H W R blockDim16 = Done outA /\
     launch schedB B filter outB0 H W R blockDim16 = Done outB /\
     launch schedAB (madd A B) filter outAB0 H W R blockDim16 =
       Done (madd outA outB)).
Proof.
  intros Hshape HlA HlB HpA HpB HpAB HoA HoB HoAB.
  assert (Hsum : forall outA outB,
     launch schedA A filter outA0 H W R blockDim16 = Done outA ->
     launch schedB B filter outB0 H W R blockDim16 = Done outB ->
     launch schedAB (madd A B) filter outAB0 H W R blockDim16 =
       Done (madd outA outB)).
  { intros outA outB HrA HrB.
    apply (launch_done_iff A filter H W R Hshape schedA outA0 outA HpA HoA)
      in HrA as [HlenA HspecA].
    apply (launch_done_iff B filter H W R Hshape schedB outB0 outB HpB HoB)
      in HrB as [HlenB HspecB].
    apply (launch_done_iff (madd A B) filter H W R Hshape schedAB outAB0 _ HpAB HoAB).
    split; [unfold madd; rewrite length_zip_with; lia|].
    intros row col Hrow Hcol.
    destruct (HspecA row col Hrow Hcol) as (a & Ha & HlaA).
    destruct (HspecB row col Hrow Hcol) as (b & Hb & HlaB).
    exists (fadd a b). split; [by apply window_sum_linear|].
    unfold madd. by rewrite lookup_zip_with, HlaA, HlaB. }
  split; [done|].
  intros Hwin Hle Hfl.
  assert (Hends : forall X sched out0,
    length X = Z.to_nat (H * W) ->
    sched ≡ₚ grid_workers (plan_grid H W) blockDim16 ->
    length out0 = Z.to_nat (H * W) ->
    exists out, launch sched X filter out0 H W R blockDim16 = Done out).
  { intros X sched out0 HlX Hp Ho.
    apply (launch_progress X filter H W R Hshape); [|done|].
    - apply Forall_forall. intros w Hw. apply (grid_nonneg H W Hshape).
      by rewrite <- Hp.
    - intros w _ [Hr Hc]. eexists. by apply window_sum_closed. }
  destruct (Hends A schedA outA0 HlA HpA HoA) as [outA HrA].
  destruct (Hends B schedB outB0 HlB HpB HoB) as [outB HrB].
  exists outA, outB. split; [done|]. split; [done|]. by apply Hsum.
Qed.
End Linearity.

Lemma conv_linear_witness :
  let grid := grid_workers (plan_grid 2 2) blockDim16 in
  let A := [qz 1; qz 2; qz 3; qz 4] in
  let B := [qz 5; qz (-6); qz 7; qz 8] in
  let filter := replicate 9 (Q2Qc (1 # 2)) in
  exists outA outB,
    launch grid A filter (replicate 4 (qz 0)) 2 2 3 blockDim16 = Done outA /\
    launch (reverse grid) B filter (replicate 4 (qz 1)) 2 2 3 blockDim16 = Done outB /\
    launch grid (madd A B) filter (replicate 4 (qz 2)) 2 2 3 blockDim16
      = Done (madd outA outB).
Proof.
  intros grid A B filter.
  destruct (conv_linear (F := Qc) A B filter 2 2 3 grid (reverse grid) grid
              (replicate 4 (qz 0)) (replicate 4 (qz 1)) (replicate 4 (qz 2)))
    as [_ Hends].
  - unfold shape_ok, Int.INT_MAX. lia.
  - reflexivity.
  - reflexivity.
  - reflexivity.
  - apply reverse_Permutation.
  - reflexivity.
  - reflexivity.
  - reflexivity.
  - reflexivity.
  - apply Hends.
    + unfold window_ok, Int.INT_MAX. repeat split; lia.
    + lia.
    + reflexivity.
Defined.

(** ** The output of the grid in closed form *)

Section LaunchClosed.
Context {F : Type} {SF : Scalar F}.
Implicit Types (input filter output : list F) (H W R row col : Z).

(** No read leaves its buffer when [H <= W]: the run ends, and slot
    [row * W + col] holds the sum of the contract with the column test
    against [H]. *)
Lemma launch_closed input filter output H W R sched :
  shape_ok H W -> window_ok H W R -> H <= W ->
  length input = Z.to_nat (H * W) -> length filter = Z.to_nat (R * R) ->
  sched ≡ₚ grid_workers (plan_grid H W) blockDim16 ->
  length output = Z.to_nat (H * W) ->
  launch sched input filter output H W R blockDim16 =
    Done ((fun k => conv_sum H input filter H W R (k `div` W) (k `mod` W))
            <$> seqZ 0 (H * W)).
Proof.
  intros Hshape Hwin Hle Hin Hfl Hperm Hlen.
  apply (launch_done_iff input filter H W R Hshape sched output _ Hperm Hlen).
  split; [by rewrite length_fmap, length_seqZ|].
  intros row col Hrow Hcol. eexists. split; [by apply window_sum_closed|].
  pose proof (flat_index_bounds H W row col Hrow Hcol).
  rewrite list_lookup_fmap, lookup_seqZ_lt by lia. simpl.
  rewrite Z2Nat.id, Z.add_0_l by lia.
  destruct (unflatten W row col) as [-> ->]; [lia..|done].
Qed.

(** X1. On a square matrix the kernel meets the contract: for a well-formed
    [H x H] input and a filter of odd side [R], every run of the planned
    grid, in any order of the workers and from any initial output buffer,
    ends with the zero-padded cross-correlation of the contract at every
    coordinate. *)
Lemma launch_square_contract input filter output H R sched :
  shape_ok H H -> window_ok H H R ->
  length input = Z.to_nat (H * H) -> length filter = Z.to_nat (R * R) ->
  sched ≡ₚ grid_workers (plan_grid H H) blockDim16 ->
  length output = Z.to_nat (H * H) ->
  launch sched input filter output H H R blockDim16 =
    Done ((fun k => conv_spec input filter H H R (k `div` H) (k `mod` H))
            <$> seqZ 0 (H * H)).
Proof. intros. by apply launch_closed. Qed.
End LaunchClosed.

(** ** Where the column test goes wrong *)

Section ColumnTest.
Context {F : Type} {SF : Scalar F}.
Implicit Types (input filter output : list F) (H W R row col : Z).

(** With a 1x1 filter the only tap of a coordinate is the coordinate itself;
    the kernel skips it in every column [col >= H] and the sum stays 0. *)
Lemma window_sum_1x1_skipped input filter H W row col :
  Int.fits row -> Int.fits col -> H <= col ->
  window_sum input filter H W 1 row col = Done f0.
Proof.
  intros Hrow Hcol Hle. unfold window_sum, for_range.
  change (Int.div 1 2) with 0. change (Int.neg 0) with 0.
  change (seqZ 0 (0 - 0 + 1)) with [0]. simpl. unfold tap.
  rewrite !Int_add_fits by (by rewrite Z.add_0_r).
  rewrite !Z.add_0_r. destruct (Z.ltb_spec col H); [lia|].
  by rewrite !andb_false_r.
Qed.

(** Every iteration of a loop that ends has ended. *)
Lemma for_each_done_inv {S} (body : Z -> S -> result S) l s s' i :
  for_each body l s = Done s' -> i ∈ l ->
  exists t t', body i t = Done t'.
Proof.
  revert s. induction l as [|k l IH]; intros s; simpl.
  - intros _ Hi. by apply elem_of_nil in Hi.
  - destruct (body k s) as [s1|acc] eqn:Hb; simpl; [|done].
    intros Hrun Hi. apply elem_of_cons in Hi as [->|Hi]; [eauto|].
    by apply (IH s1).
Qed.

(** On a matrix taller than wide, with a filter of side 3 or more, the
    worker of the last coordinate accepts the tap [(H - 1, W)], since
    [W < H], and reads [input[H * W]]: its sum is never completed. *)
Lemma window_sum_tall_faults input filter H W R v :
  shape_ok H W -> window_ok H W R -> 3 <= R -> W < H ->
  length input = Z.to_nat (H * W) ->
  window_sum input filter H W R (H - 1) (W - 1) <> Done v.
Proof.
  intros (HH & HW & HHW & _ & _) (HR & Hodd & HRR & HHR & HWR) HR3 Hlt Hin Hrun.
  destruct (odd_half R HR Hodd) as [Hpad HR2].
  unfold window_sum, for_range in Hrun.
  rewrite pad_int in Hrun by (unfold Int.INT_MAX in *; nia).
  set (pad := Z.quot R 2) in *.
  rewrite Int_neg_fits in Hrun
    by (unfold Int.fits, Int.INT_MIN, Int.INT_MAX in *; nia).
  apply (for_each_done_inv _ _ _ _ 0) in Hrun as (s & s' & Hrow);
    [|apply elem_of_seqZ; lia].
  apply (for_each_done_inv _ _ _ _ 1) in Hrow as (t & t' & Htap);
    [|apply elem_of_seqZ; lia].
  unfold tap, Int.INT_MAX in *.
  assert (Hfits : forall z, -2147483648 <= z <= 2147483647 -> Int.fits z)
    by (intros z; unfold Int.fits, Int.INT_MIN, Int.INT_MAX; lia).
  rewrite (Int_add_fits (H - 1) 0), (Int_add_fits (W - 1) 1) in Htap
    by (apply Hfits; lia).
  replace (H - 1 + 0) with (H - 1) in Htap by lia.
  replace (W - 1 + 1) with W in Htap by lia.
  destruct (Z.leb_spec 0 (H - 1)); [|lia]. destruct (Z.ltb_spec (H - 1) H); [|lia].
  destruct (Z.leb_spec 0 W); [|lia]. destruct (Z.ltb_spec W H); [|lia].
  simpl in Htap.
  rewrite (Int_mul_fits (H - 1) W), (Int_add_fits ((H - 1) * W) W) in Htap
    by (apply Hfits; nia).
  replace ((H - 1) * W + W) with (H * W) in Htap by lia.
  assert (Hload : load input RdInput (H * W) = Fault (RdInput (H * W))).
  { unfold load. destruct (Z.leb_spec 0 (H * W)); [|done].
    by rewrite lookup_ge_None_2 by lia. }
  by rewrite Hload in Htap.
Qed.

(** So the run of the grid stops at a read outside the input buffer. *)
Lemma launch_tall_faults input filter output H W R sched :
  shape_ok H W -> window_ok H W R -> 3 <= R -> W < H ->
  length input = Z.to_nat (H * W) ->
  sched ≡ₚ grid_workers (plan_grid H W) blockDim16 ->
  length output = Z.to_nat (H * W) ->
  exists acc, launch sched input filter output H W R blockDim16 = Fault acc.
Proof.
  intros Hshape Hwin HR3 Hlt Hin Hperm Hlen.
  destruct (launch sched input filter output H W R blockDim16) as [out|acc] eqn:Hrun;
    [|eauto].
  apply (launch_done_iff input filter H W R Hshape sched output out Hperm Hlen)
    in Hrun as [_ Hspec].
  pose proof Hshape as (HH & HW & _).
  destruct (Hspec (H - 1) (W - 1)) as (v & Hv & _); [lia..|].
  destruct (window_sum_tall_faults input filter H W R v Hshape Hwin HR3 Hlt Hin Hv).
Qed.
End ColumnTest.

(** ** The column test of the kernel *)

(** C1. The contract asks, at every coordinate, for the sum of the taps with
    [row + i] in [0,H) and [col + j] in [0,W).  The kernel tests the column
    against [H]: on the 2x3 matrix [[1,2,3],[4,5,6]] with the 3x3 filter of
    ones it leaves column 2 out of every sum and writes [12,12,7,12,12,7]
    where the contract gives [12,21,16,12,21,16]. *)
Theorem conv2d_column_tested_against_H :
  conv2d mat_2x3 ones_3x3 2 3 3 = Done (qz <$> [12; 12; 7; 12; 12; 7]) /\
  conv_spec_all mat_2x3 ones_3x3 2 3 3 = qz <$> [12; 21; 16; 12; 21; 16].
Proof. split; qc_eval. Qed.

(** C2. With the 1x1 filter [1.0] the output should be the input.  On the
    2x3 matrix [[1,2,3],[4,5,6]] the kernel skips the only tap of every
    coordinate of column 2, since [2 < H] fails, and writes 0 there. *)
Theorem conv2d_identity_filter_drops_columns :
  conv2d mat_2x3 [qz 1] 2 3 1 = Done (qz <$> [1; 2; 0; 4; 5; 0]) /\
  conv_spec_all mat_2x3 [qz 1] 2 3 1 = mat_2x3.
Proof. split; qc_eval. Qed.

(** C10. On a 2x1 matrix with a 3x3 filter, worker (0,0) accepts the tap
    [(r, c) = (1, 1)], since [c < H], and reads [input[1 * 1 + 1]], one past
    the end of the 2-element input buffer.  (The tap [(0, 1)] before it reads
    [input[1]], inside the buffer but not an element of row 0.) *)
Theorem conv2d_kernel_reads_past_input :
  length [qz 1; qz 1] = Z.to_nat (2 * 1) /\
  conv2d_kernel [qz 1; qz 1] ones_3x3 [qz 0; qz 0] 2 1 3 blockDim16
    (Dim3 0 0 0) (Dim3 0 0 0) = Fault (RdInput 2).
Proof. split; reflexivity. Qed.

(** ** What the read past the input does to the output *)

(** The 3x2 matrix [[1,2],[3,4],[5,6]] with a 3x3 filter, on [float].  The
    workers of [(1, 1)] and [(2, 1)] accept the tap [(2, 2)], since
    [2 < H], and read [input[2 * 2 + 2] = input[6]], the element after the
    six of the buffer; what they store depends on the value [g] that the
    device memory holds there. *)

(** C3. With the filter of zeros the kernel stores [0 + g * 0] at [(1, 1)]
    and [(2, 1)]: when the memory after the input holds an infinity this is
    NaN, not 0. *)
Theorem conv2d_zero_filter_tall_not_zero :
  conv2d_float tall_3x2 zeros_3x3_float 3 2 3 = Fault (RdInput 6) /\
  (forall g,
     conv2d_float (tall_3x2 ++ [g]) zeros_3x3_float 3 2 3 =
       Done [f32 0; f32 0; f32 0; float_add (f32 0) (float_mul g (f32 0));
             f32 0; float_add (f32 0) (float_mul g (f32 0))]) /\
  conv2d_float (tall_3x2 ++ [S754_infinity false]) zeros_3x3_float 3 2 3 =
    Done [f32 0; f32 0; f32 0; S754_nan; f32 0; S754_nan].
Proof.
  split; [|split]; [|intros g|]; vm_compute; reflexivity.
Qed.

(** C6. With the filter of ones and the value 1 in the memory after each
    input, the outputs for [A], for [B] and for [A + B] are not additive at
    [(1, 1)] and [(2, 1)]: 57 is not 30 + 28 and 36 is not 24 + 13 (the
    value after the input is counted once in each run). *)
Theorem conv2d_tall_not_additive :
  let A := tall_3x2 in
  let B := tall_3x2_rev in
  let AB := madd (SF := binary32) A B in
  let outA := f32 <$> [10; 18; 21; 30; 18; 24] in
  let outB := f32 <$> [18; 24; 21; 28; 10; 13] in
  let outAB := f32 <$> [28; 42; 42; 57; 28; 36] in
  AB = f32 <$> [7; 7; 7; 7; 7; 7] /\
  conv2d_float AB ones_3x3_float 3 2 3 = Fault (RdInput 6) /\
  conv2d_float (A ++ [f32 1]) ones_3x3_float 3 2 3 = Done outA /\
  conv2d_float (B ++ [f32 1]) ones_3x3_float 3 2 3 = Done outB /\
  conv2d_float (AB ++ [f32 1]) ones_3x3_float 3 2 3 = Done outAB /\
  madd (SF := binary32) outA outB = f32 <$> [28; 42; 42; 58; 28; 37] /\
  outAB <> madd (SF := binary32) outA outB.
Proof.
  repeat split; try (vm_compute; reflexivity).
  intros Heq. vm_compute in Heq. discriminate Heq.
Qed.

(** C8. With the filter of ones the kernel stores [29 + g] at [(1, 1)] and
    [23 + g] at [(2, 1)]: two executions on the same matrix, filter and
    dimensions give different outputs when the memory after the input
    differs. *)
Theorem conv2d_tall_output_depends_on_memory :
  conv2d_float tall_3x2 ones_3x3_float 3 2 3 = Fault (RdInput 6) /\
  (forall g,
     conv2d_float (tall_3x2 ++ [g]) ones_3x3_float 3 2 3 =
       Done [f32 10; f32 18; f32 21; float_add (f32 29) (float_mul g (f32 1));
             f32 18; float_add (f32 23) (float_mul g (f32 1))]) /\
  conv2d_float (tall_3x2 ++ [f32 0]) ones_3x3_float 3 2 3 =
    Done (f32 <$> [10; 18; 21; 29; 18; 23]) /\
  conv2d_float (tall_3x2 ++ [f32 7]) ones_3x3_float 3 2 3 =
    Done (f32 <$> [10; 18; 21; 36; 18; 30]) /\
  conv2d_float (tall_3x2 ++ [f32 0]) ones_3x3_float 3 2 3 <>
    conv2d_float (tall_3x2 ++ [f32 7]) ones_3x3_float 3 2 3.
Proof.
  split; [|split; [intros g|split; [|split]]]; try (vm_compute; reflexivity).
  intros Heq. vm_compute in Heq. discriminate Heq.
Qed.

(** ** The box blur *)

(** C7 as the specification states it fails: the corner is not the mean of
    its four in-range neighbours 1, 2, 4, 5. *)
Lemma box_blur_corner_is_not_the_mean :
  ~ (exists output,
       conv2d mat_3x3 box_blur 3 3 3 = Done output /\
       output !! 4%nat = Some (qmean mat_3x3) /\
       output !! 0%nat = Some (qmean [qz 1; qz 2; qz 4; qz 5])).
Proof.
  intros (output & Hrun & _ & Hcorner).
  assert (Hval : conv2d mat_3x3 box_blur 3 3 3 =
                 Done [Q2Qc (4 # 3); Q2Qc (7 # 3); Q2Qc (16 # 9);
                       qz 3; qz 5; Q2Qc (11 # 3);
                       Q2Qc (8 # 3); Q2Qc (13 # 3); Q2Qc (28 # 9)]) by qc_eval.
  rewrite Hval in Hrun. assert (Hout : output = [Q2Qc (4 # 3); Q2Qc (7 # 3); Q2Qc (16 # 9);
                       qz 3; qz 5; Q2Qc (11 # 3);
                       Q2Qc (8 # 3); Q2Qc (13 # 3); Q2Qc (28 # 9)]) by congruence.
  subst output.
  assert (Heq : Q2Qc (4 # 3) = qmean [qz 1; qz 2; qz 4; qz 5])
    by (cbn [lookup list_lookup] in Hcorner; congruence).
  apply (f_equal this) in Heq. vm_compute in Heq. discriminate Heq.
Qed.

(** C7, amended.  For the 3x3 matrix [[1,2,3],[4,5,6],[7,8,9]] and the 3x3
    filter whose every value is 1/9, the output at the centre (1,1) is the
    mean of all nine values, 5; the output at the corner (0,0) is 1/9 of the
    sum of its four in-range neighbours, (1 + 2 + 4 + 5) / 9 = 4/3: the
    taps outside the matrix count as zeros, the divisor stays 9. *)
Theorem box_blur_centre_and_corner :
  exists output,
    conv2d mat_3x3 box_blur 3 3 3 = Done output /\
    output !! 4%nat = Some (qmean mat_3x3) /\
    qmean mat_3x3 = qz 5 /\
    output !! 0%nat =
      Some (Qcmult (Qcdiv (qz 1) (qz 9))
                   (Qcplus (Qcplus (qz 1) (qz 2)) (Qcplus (qz 4) (qz 5)))) /\
    output !! 0%nat = Some (Q2Qc (4 # 3)).
Proof.
  exists [Q2Qc (4 # 3); Q2Qc (7 # 3); Q2Qc (16 # 9);
          qz 3; qz 5; Q2Qc (11 # 3);
          Q2Qc (8 # 3); Q2Qc (13 # 3); Q2Qc (28 # 9)].
  repeat split; qc_eval.
Qed.

(** ** The command line *)

(** C9. With fewer than two positional arguments ([argc - 1 < 2]) the
    program writes the usage error to the standard error stream and returns
    -1, a nonzero status; it opens no file, allocates nothing, transfers
    nothing and launches nothing. *)
Theorem main_too_few_arguments {F : Type} {SF : Scalar F}
    (e : env F) (argc : Z) (argv : list string) :
  argc - 1 < 2 ->
  main e argc argv = Ret [Stderr "ERROR: number of arguments < 3"] (-1) /\
  (exists status, exit_status (main e argc argv) = Some status /\ status <> 0) /\
  Forall (fun ev => is_work ev = false) (effects (main e argc argv)).
Proof.
  intros Hargc.
  assert (Hmain : main e argc argv = Ret [Stderr "ERROR: number of arguments < 3"] (-1)).
  { unfold main. destruct (Z.ltb_spec argc 3); [done | lia]. }
  rewrite Hmain. split; [done|]. split.
  - exists (-1). split; [done | lia].
  - simpl. by repeat constructor.
Qed.

Lemma main_too_few_arguments_witness :
  main quiet_env 2 ["conv2dV1"; "input.txt"]
    = Ret [Stderr "ERROR: number of arguments < 3"] (-1).
Proof. apply (main_too_few_arguments quiet_env 2 ["conv2dV1"; "input.txt"]). lia. Defined.

(** With both arguments, in an environment where nothing fails, the program
    goes through every stage, prints the nine values of the box blur of
    [[1,2,3],[4,5,6],[7,8,9]] and returns 0. *)
Lemma main_box_blur_run :
  let r := main quiet_env 3 ["conv2dV1"; "input.txt"; "filter.txt"] in
  exit_status r = Some 0 /\
  printed (effects r) =
    [4 # 3; 7 # 3; 16 # 9; 3 # 1; 5 # 1; 11 # 3; 8 # 3; 13 # 3; 28 # 9]%Q /\
  Exists (fun ev => ev = KernelLaunch (Dim3 1 1 1) blockDim16) (effects r).
Proof.
  vm_compute. split; [reflexivity|]. split; [reflexivity|].
  do 12 apply Exists_cons_tl. by apply Exists_cons_hd.
Qed.

(** ** The whole program is deterministic *)

Section MainDeterministic.
Context {F : Type} {SF : Scalar F}.

Lemma run_bind_ext {A B} (m : run F A) (k1 k2 : A -> run F B) :
  (forall t a, m = Ret t a -> k1 a = k2 a) -> m ≫= k1 = m ≫= k2.
Proof.
  intros Hk. destruct m as [t a|t e]; [|done]. simpl. by rewrite (Hk t a).
Qed.

Lemma readInput_ret (e : env F) path t h_input H W :
  readInput e path = Ret t (h_input, H, W) ->
  exists toks, input_file e path = Some (H, W, toks).
Proof.
  unfold readInput. simpl.
  destruct (input_file e path) as [[[H' W'] toks]|]; [|done].
  destruct (read_elements _ _ _ _ _) as [t' a|t' e']; simpl; [|done].
  intros [= _ _ -> ->]. eauto.
Qed.

(** X21. Two runs of the program that meet the same files and the same
    failures: when the behaviour of one is defined (it makes no access
    outside a buffer), so is the behaviour of the other, and the two have
    the same effects and the same ending, whatever the order in which the
    device runs the workers and whatever its fresh memory holds.  Runs that
    read outside a buffer are not covered: what they print depends on the
    memory next to the buffer. *)
Lemma main_deterministic (e1 e2 : env F) argc argv :
  input_file e1 = input_file e2 -> filter_file e1 = filter_file e2 ->
  malloc_null e1 = malloc_null e2 -> cuda_fails e1 = cuda_fails e2 ->
  (forall H W toks,
     input_file e1 (default EmptyString (argv !! 1%nat)) = Some (H, W, toks) ->
     shape_ok H W) ->
  (forall t, main e1 argc argv <> Halt t Undefined) ->
  main e1 argc argv = main e2 argc argv /\
  (forall t, main e2 argc argv <> Halt t Undefined).
Proof.
  intros Hif Hff Hmn Hcf Hshape Hdef.
  cut (main e1 argc argv = main e2 argc argv);
    [intros Heq; split; [done|]; by rewrite <- Heq|].
  assert (HrI : forall p, readInput e2 p = readInput e1 p)
    by (intros p; unfold readInput, read_elements; by rewrite Hif, Hmn).
  assert (HrF : forall p, readFilter e2 p = readFilter e1 p)
    by (intros p; unfold readFilter, read_elements; by rewrite Hff, Hmn).
  assert (Hck : forall c ev msg, checked e2 c ev msg = checked e1 c ev msg)
    by (intros; unfold checked; by rewrite Hcf).
  unfold main. destruct (argc <? 3); [done|].
  rewrite HrI. apply run_bind_ext. intros t [[h_input H] W] Hread.
  apply readInput_ret in Hread as [toks Hfile]. specialize (Hshape _ _ _ Hfile).
  rewrite HrF. apply run_bind_ext. intros t' [h_filter R] _.
  apply run_bind_ext. intros _ [] _.
  destruct h_input as [h_input|], h_filter as [h_filter|]; try done.
  rewrite !Hck, <- Hmn.
  do 9 (apply run_bind_ext; intros ? [] _).
  destruct (shape_ok_fits H W Hshape) as (_ & _ & _ & _ & HfHW).
  rewrite (Int_mul_fits H W HfHW).
  pose proof (launch_same_outcome h_input h_filter H W R
     (schedule e1 (grid_workers (plan_grid H W) blockDim16))
     (schedule e2 (grid_workers (plan_grid H W) blockDim16))
     (resize (Z.to_nat (H * W)) f0 (fresh_device_memory e1))
     (resize (Z.to_nat (H * W)) f0 (fresh_device_memory e2))
     Hshape (schedule_perm _ e1 _) (schedule_perm _ e2 _)
     (length_resize _ _ _) (length_resize _ _ _)) as Hdet.
  destruct (launch (schedule e1 _) _ _ _ _ _ _ _) as [o1|a1];
    destruct (launch (schedule e2 _) _ _ _ _ _ _ _) as [o2|a2];
    simpl in Hdet; try done.
  by subst o2.
Qed.
End MainDeterministic.

(** * Further properties of the code *)

(** ** What can stop a worker *)

Section Faults.
Context {F : Type} {SF : Scalar F}.
Implicit Types (input filter output : list F) (H W R row col : Z).

Lemma load_fault_oob (buf : list F) what i acc :
  load buf what i = Fault acc ->
  acc = what i /\ ~ (0 <= i < Z.of_nat (length buf)).
Proof.
  unfold load. destruct (Z.leb_spec 0 i).
  - destruct (buf !! Z.to_nat i) eqn:Hl; [done|].
    intros [= <-]. split; [done|]. apply lookup_ge_None in Hl. lia.
  - intros [= <-]. split; [done | lia].
Qed.

(** A tap stops at its input read or, that read done, at its filter read. *)
Lemma tap_fault_cases input filter H W R row col pad i j sum acc :
  tap input filter H W R row col pad i j sum = Fault acc ->
  let r := Int.add row i in
  let c := Int.add col j in
  0 <= r < H /\ 0 <= c < H /\
  ((exists k, k = Int.add (Int.mul r W) c /\ acc = RdInput k /\
              ~ (0 <= k < Z.of_nat (length input))) \/
   (exists k, k = Int.add (Int.mul (Int.add i pad) R) (Int.add j pad) /\
              acc = RdFilter k /\ ~ (0 <= k < Z.of_nat (length filter)) /\
              0 <= Int.add (Int.mul r W) c < Z.of_nat (length input))).
Proof.
  intros Htap r c. unfold tap in Htap.
  change (Int.add row i) with r in Htap. change (Int.add col j) with c in Htap.
  destruct (Z.leb_spec 0 r); [|done]. destruct (Z.ltb_spec r H); [|done].
  destruct (Z.leb_spec 0 c); [|done]. destruct (Z.ltb_spec c H); [|done].
  simpl in Htap. split; [lia|]. split; [lia|].
  destruct (load input _ _) as [x|a] eqn:Hx; simpl in Htap.
  - destruct (load filter _ _) as [f|a] eqn:Hf; simpl in Htap; [done|].
    injection Htap as ->. apply load_fault_oob in Hf as [-> Hoob].
    right. eexists. split; [done|]. split; [done|]. split; [done|].
    unfold load in Hx. destruct (Z.leb_spec 0 (Int.add (Int.mul r W) c)); [|done].
    destruct (input !! _) eqn:Hl; [|done]. apply lookup_lt_Some in Hl. lia.
  - injection Htap as ->. apply load_fault_oob in Hx as [-> Hoob].
    left. eexists. eauto.
Qed.

(** With a filter of odd side every filter read is inside the filter: a
    window sum can only stop at an input read outside the input buffer. *)
Lemma window_sum_fault_is_input_read input filter H W R row col acc :
  1 <= R -> Z.odd R = true -> R * R <= Int.INT_MAX ->
  length filter = Z.to_nat (R * R) ->
  window_sum input filter H W R row col = Fault acc ->
  exists k, acc = RdInput k /\ ~ (0 <= k < Z.of_nat (length input)).
Proof.
  intros HR Hodd HRR Hfl. destruct (odd_half R HR Hodd) as [Hpad HR2].
  unfold window_sum, for_range.
  rewrite pad_int by (unfold Int.INT_MAX in *; nia).
  set (pad := Z.quot R 2) in *.
  rewrite Int_neg_fits by (unfold Int.fits, Int.INT_MIN, Int.INT_MAX in *; nia).
  intros Hf.
  apply for_each_fault in Hf as (i & s & Hi & Hf).
  apply for_each_fault in Hf as (j & s' & Hj & Hf).
  apply elem_of_seqZ in Hi, Hj.
  apply tap_fault_cases in Hf as (_ & _ & [(k & _ & -> & Hoob)|(k & Hk & _ & Hoob & _)]);
    [eauto|].
  exfalso. apply Hoob.
  assert (Hfits : forall z, -2147483648 <= z <= 2147483647 -> Int.fits z)
    by (intros z; unfold Int.fits, Int.INT_MIN, Int.INT_MAX; lia).
  unfold Int.INT_MAX in *.
  rewrite (Int_add_fits i pad), (Int_add_fits j pad) in Hk by (apply Hfits; nia).
  rewrite (flat_index_int R R) in Hk by (try lia; apply Hfits; nia).
  pose proof (flat_index_bounds R R (i + pad) (j + pad) ltac:(lia) ltac:(lia)). lia.
Qed.

(** On a problem at least as wide as tall every accepted input read is
    inside the input: a window sum can only stop at a filter read outside
    the filter. *)
Lemma window_sum_fault_is_filter_read input filter H W R row col acc :
  shape_ok H W -> H <= W -> 1 <= R -> H + R <= Int.INT_MAX -> W + R <= Int.INT_MAX ->
  length input = Z.to_nat (H * W) ->
  0 <= row < H -> 0 <= col < W ->
  window_sum input filter H W R row col = Fault acc ->
  exists k, acc = RdFilter k /\ ~ (0 <= k < Z.of_nat (length filter)).
Proof.
  intros (HH & HW & HHW & _ & _) Hle HR HHR HWR Hin Hrow Hcol.
  unfold window_sum, for_range.
  rewrite pad_int by (unfold Int.INT_MAX in *; lia).
  assert (0 <= Z.quot R 2 <= R).
  { rewrite Z.quot_div_nonneg by lia.
    split; [apply Z.div_pos; lia | apply Z.div_le_upper_bound; lia]. }
  set (pad := Z.quot R 2) in *.
  rewrite Int_neg_fits by (unfold Int.fits, Int.INT_MIN, Int.INT_MAX in *; lia).
  intros Hf.
  apply for_each_fault in Hf as (i & s & Hi & Hf).
  apply for_each_fault in Hf as (j & s' & Hj & Hf).
  apply elem_of_seqZ in Hi, Hj.
  apply tap_fault_cases in Hf as (Hr & Hc & [(k & Hk & _ & Hoob)|(k & _ & -> & Hoob & _)]);
    [|eauto].
  exfalso. apply Hoob.
  assert (Hfits : forall z, -2147483648 <= z <= 2147483647 -> Int.fits z)
    by (intros z; unfold Int.fits, Int.INT_MIN, Int.INT_MAX; lia).
  unfold Int.INT_MAX in *.
  rewrite (Int_add_fits row i), (Int_add_fits col j) in * by (apply Hfits; lia).
  rewrite (flat_index_int H W) in Hk by (try lia; apply Hfits; lia).
  pose proof (flat_index_bounds H W (row + i) (col + j) ltac:(lia) ltac:(lia)). lia.
Qed.

(** A run of the grid that stops, stops in the window sum of a worker
    inside the matrix. *)
Lemma launch_fault_inv input filter output H W R sched acc :
  shape_ok H W -> Forall nonneg sched -> length output = Z.to_nat (H * W) ->
  launch sched input filter output H W R blockDim16 = Fault acc ->
  exists w, w ∈ sched /\ inside H W w /\
            window_sum input filter H W R (row_of w) (col_of w) = Fault acc.
Proof.
  intros Hshape Hnn. revert output.
  induction Hnn as [|w sched Hw Hnn IH]; intros output Hlen; simpl; [done|].
  rewrite (kernel_step input filter H W R Hshape) by done. case_decide as Hin.
  - destruct (window_sum input filter H W R (row_of w) (col_of w)) as [sum|a] eqn:Hs;
      simpl.
    + intros Hrun. destruct (IH _ ltac:(by rewrite length_insert) Hrun) as (w' & ? & ? & ?).
      exists w'. split; [by right | done].
    + intros [= ->]. exists w. split; [by left | done].
  - simpl. intros Hrun. destruct (IH _ Hlen Hrun) as (w' & ? & ? & ?).
    exists w'. split; [by right | done].
Qed.

Lemma sched_nonneg H W sched :
  shape_ok H W -> sched ≡ₚ grid_workers (plan_grid H W) blockDim16 ->
  Forall nonneg sched.
Proof.
  intros Hshape Hperm. apply Forall_forall. intros w Hw.
  apply (grid_nonneg H W Hshape). by rewrite <- Hperm.
Qed.

(** X4. With a filter of odd side [R] holding its [R * R] elements, a run
    of the planned grid that does not end has stopped at a read of the input
    outside the input buffer: it never reads outside the filter and never
    stores outside the output. *)
Theorem launch_fault_is_input_read input filter output H W R sched acc :
  shape_ok H W -> 1 <= R -> Z.odd R = true -> R * R <= Int.INT_MAX ->
  length filter = Z.to_nat (R * R) ->
  sched ≡ₚ grid_workers (plan_grid H W) blockDim16 ->
  length output = Z.to_nat (H * W) ->
  launch sched input filter output H W R blockDim16 = Fault acc ->
  exists k, acc = RdInput k /\ ~ (0 <= k < Z.of_nat (length input)).
Proof.
  intros Hshape HR Hodd HRR Hfl Hperm Hlen Hrun.
  apply launch_fault_inv in Hrun as (w & _ & _ & Hsum);
    [|done | by eapply sched_nonneg | done].
  by eapply window_sum_fault_is_input_read.
Qed.

(** X3. On a matrix taller than wide ([W < H]) with a filter of odd side 3
    or more, every run of the planned grid stops at a read outside the input
    buffer: the worker of [(H - 1, W - 1)] accepts column [W], which is
    below [H], and asks for [input[H * W]]. *)
Theorem launch_tall_reads_outside_input input filter output H W R sched :
  shape_ok H W -> window_ok H W R -> 3 <= R -> W < H ->
  length input = Z.to_nat (H * W) -> length filter = Z.to_nat (R * R) ->
  sched ≡ₚ grid_workers (plan_grid H W) blockDim16 ->
  length output = Z.to_nat (H * W) ->
  exists k, launch sched input filter output H W R blockDim16 = Fault (RdInput k) /\
            ~ (0 <= k < H * W).
Proof.
  intros Hshape Hwin HR3 Hlt Hin Hfl Hperm Hlen.
  destruct (launch_tall_faults input filter output H W R sched) as [acc Hrun];
    [done..|].
  pose proof Hwin as (HR & Hodd & HRR & _).
  pose proof Hrun as Hrun'.
  apply launch_fault_inv in Hrun' as (w & _ & _ & Hsum);
    [|done | by eapply sched_nonneg | done].
  apply window_sum_fault_is_input_read in Hsum as (k & -> & Hoob); [|done..].
  exists k. split; [done|]. destruct Hshape as (? & ? & _). rewrite Hin in Hoob. nia.
Qed.
End Faults.

(** ** Filters the kernel does not expect *)

Section Filters.
Context {F : Type} {SF : Scalar F}.
Implicit Types (input filter output : list F) (H W R row col : Z).

Lemma even_half R : 2 <= R -> Z.even R = true -> 1 <= Z.quot R 2 /\ R = 2 * Z.quot R 2.
Proof.
  intros HR Heven. rewrite Z.quot_div_nonneg by lia.
  pose proof (Z.div_mod R 2 ltac:(lia)) as Hdm.
  rewrite Zmod_even, Heven in Hdm. lia.
Qed.

(** With a filter of even side the loops visit [R + 1] rows and columns of
    taps: the worker of [(0, 0)] reaches filter row [R]. *)
Lemma window_sum_even_faults input filter H W R v :
  shape_ok H W -> 2 <= R -> Z.even R = true -> R * R + R <= Int.INT_MAX ->
  H + R <= Int.INT_MAX -> W + R <= Int.INT_MAX ->
  Z.quot R 2 < H -> H <= W ->
  length input = Z.to_nat (H * W) -> length filter = Z.to_nat (R * R) ->
  window_sum input filter H W R 0 0 <> Done v.
Proof.
  intros (HH & HW & HHW & _ & _) HR Heven HRR HHR HWR Hpad Hle Hin Hfl Hrun.
  destruct (even_half R HR Heven) as [Hpad1 HR2].
  unfold window_sum, for_range in Hrun.
  rewrite pad_int in Hrun by (unfold Int.INT_MAX in *; nia).
  set (pad := Z.quot R 2) in *.
  rewrite Int_neg_fits in Hrun
    by (unfold Int.fits, Int.INT_MIN, Int.INT_MAX in *; nia).
  apply (for_each_done_inv _ _ _ _ pad) in Hrun as (s & s' & Hrow);
    [|apply elem_of_seqZ; lia].
  apply (for_each_done_inv _ _ _ _ 0) in Hrow as (t & t' & Htap);
    [|apply elem_of_seqZ; lia].
  unfold tap, Int.INT_MAX in *.
  assert (Hfits : forall z, -2147483648 <= z <= 2147483647 -> Int.fits z)
    by (intros z; unfold Int.fits, Int.INT_MIN, Int.INT_MAX; lia).
  rewrite (Int_add_fits 0 pad), (Int_add_fits 0 0), (Int_add_fits pad pad) in Htap
    by (apply Hfits; lia).
  change (0 + 0) with 0 in Htap. rewrite Z.add_0_l in Htap.
  destruct (Z.leb_spec 0 pad); [|lia]. destruct (Z.ltb_spec pad H); [|lia].
  destruct (Z.ltb_spec 0 H); [|lia]. simpl in Htap.
  rewrite (flat_index_int H W pad 0) in Htap by (try lia; apply Hfits; lia).
  pose proof (flat_index_bounds H W pad 0 ltac:(lia) ltac:(lia)).
  rewrite load_at2 in Htap by lia. simpl in Htap.
  rewrite (Int_mul_fits (pad + pad) R), (Int_add_fits ((pad + pad) * R) pad) in Htap
    by (apply Hfits; nia).
  assert (Hload : load filter RdFilter ((pad + pad) * R + pad)
                  = Fault (RdFilter ((pad + pad) * R + pad))).
  { unfold load. destruct (Z.leb_spec 0 ((pad + pad) * R + pad)); [|done].
    by rewrite lookup_ge_None_2 by nia. }
  by rewrite Hload in Htap.
Qed.

(** X5. The kernel does not reject a filter of even side [R]: on a
    well-formed problem with [R / 2 < H <= W] every run of the planned grid
    stops at a read outside the filter buffer (the loops run over
    [R + 1] rows and columns of taps). *)
Theorem launch_even_filter_reads_outside input filter output H W R sched :
  shape_ok H W -> 2 <= R -> Z.even R = true -> R * R + R <= Int.INT_MAX ->
  H + R <= Int.INT_MAX -> W + R <= Int.INT_MAX ->
  Z.quot R 2 < H -> H <= W ->
  length input = Z.to_nat (H * W) -> length filter = Z.to_nat (R * R) ->
  sched ≡ₚ grid_workers (plan_grid H W) blockDim16 ->
  length output = Z.to_nat (H * W) ->
  exists k, launch sched input filter output H W R blockDim16 = Fault (RdFilter k) /\
            ~ (0 <= k < R * R).
Proof.
  intros Hshape HR Heven HRR HHR HWR Hpad Hle Hin Hfl Hperm Hlen.
  pose proof Hshape as (HH & HW & _).
  destruct (launch sched input filter output H W R blockDim16) as [out|acc] eqn:Hrun.
  - apply (launch_done_iff input filter H W R Hshape sched output out Hperm Hlen)
      in Hrun as [_ Hspec].
    destruct (Hspec 0 0) as (v & Hv & _); [lia..|].
    by apply window_sum_even_faults in Hv.
  - apply launch_fault_inv in Hrun as (w & _ & [Hr Hc] & Hsum);
      [|done | by eapply sched_nonneg | done].
    apply window_sum_fault_is_filter_read in Hsum as (k & -> & Hoob);
      [|done || lia..].
    exists k. split; [done|]. rewrite Hfl in Hoob. nia.
Qed.

(** The window sum for a 1x1 filter: the tap of the coordinate itself,
    when its column is below [H]. *)
Lemma window_sum_1x1 input filter H W row col f :
  shape_ok H W -> length input = Z.to_nat (H * W) -> filter !! 0%nat = Some f ->
  0 <= row < H -> 0 <= col < W ->
  window_sum input filter H W 1 row col =
    Done (if col <? H then fadd f0 (fmul (at2 input W row col) f) else f0).
Proof.
  intros (HH & HW & HHW & _ & _) Hin Hf Hrow Hcol.
  assert (Hfits : forall z, -2147483648 <= z <= 2147483647 -> Int.fits z)
    by (intros z; unfold Int.fits, Int.INT_MIN, Int.INT_MAX; lia).
  unfold Int.INT_MAX in *.
  pose proof (flat_index_bounds H W row col Hrow Hcol).
  destruct (Z.ltb_spec col H) as [Hlt|Hge];
    [|apply window_sum_1x1_skipped; [apply Hfits; lia.. | done]].
  unfold window_sum, for_range.
  change (Int.div 1 2) with 0. change (Int.neg 0) with 0.
  change (seqZ 0 (0 - 0 + 1)) with [0]. simpl. unfold tap.
  rewrite !Int_add_fits by (rewrite Z.add_0_r; apply Hfits; lia).
  rewrite !Z.add_0_r.
  destruct (Z.leb_spec 0 row); [|lia]. destruct (Z.ltb_spec row H); [|lia].
  destruct (Z.leb_spec 0 col); [|lia]. destruct (Z.ltb_spec col H); [|lia].
  simpl. rewrite (flat_index_int H W) by (try lia; apply Hfits; lia).
  rewrite load_at2 by lia. simpl.
  change (Int.add (Int.mul (Int.add 0 0) 1) (Int.add 0 0)) with 0.
  assert (load filter RdFilter 0 = Done f) as ->; [|done].
  unfold load. change (Z.to_nat 0) with 0%nat. by rewrite Hf.
Qed.

(** X6. With a 1x1 filter [f] no run of the planned grid stops, whatever the
    shape: the output at [(row, col)] is [0 + input[row, col] * f] in the
    columns [col < H] and 0 in the columns [col >= H].  On a matrix at
    least as tall as wide every column is below [H] and the output is the
    scaled input. *)
Theorem launch_1x1_filter input filter output H W sched f :
  shape_ok H W -> length input = Z.to_nat (H * W) -> filter !! 0%nat = Some f ->
  sched ≡ₚ grid_workers (plan_grid H W) blockDim16 ->
  length output = Z.to_nat (H * W) ->
  launch sched input filter output H W 1 blockDim16 =
    Done ((fun k => if k `mod` W <? H
                    then fadd f0 (fmul (at2 input W (k `div` W) (k `mod` W)) f)
                    else f0) <$> seqZ 0 (H * W)).
Proof.
  intros Hshape Hin Hf Hperm Hlen.
  apply (launch_done_iff input filter H W 1 Hshape sched output _ Hperm Hlen).
  split; [by rewrite length_fmap, length_seqZ|].
  intros row col Hrow Hcol. eexists. split; [by apply window_sum_1x1|].
  pose proof (flat_index_bounds H W row col Hrow Hcol).
  rewrite list_lookup_fmap, lookup_seqZ_lt by lia. simpl.
  rewrite Z2Nat.id, Z.add_0_l by lia.
  destruct (unflatten W row col) as [-> ->]; [lia..|done].
Qed.

(** A filter side of -2 or less makes [pad] negative and both loops empty. *)
Lemma window_sum_negative_side input filter H W R row col :
  Int.INT_MIN <= R <= -2 ->
  window_sum input filter H W R row col = Done f0.
Proof.
  intros HR. unfold window_sum, for_range, Int.div, Int.neg.
  pose proof (Z.quot_rem R 2 ltac:(lia)) as Hqr.
  pose proof (Z.rem_bound_pos_neg R 2 ltac:(lia) ltac:(lia)) as Hrem.
  unfold Int.INT_MIN in *.
  rewrite (Int_wrap_fits (Z.quot R 2))
    by (unfold Int.fits, Int.INT_MIN, Int.INT_MAX; lia).
  rewrite Int_wrap_fits by (unfold Int.fits, Int.INT_MIN, Int.INT_MAX; lia).
  by rewrite seqZ_nil by lia.
Qed.

(** X7. The kernel does not reject a negative filter side: for [R <= -2]
    the loops are empty, no worker reads anything, and every run of the
    planned grid writes 0 to every element, whatever the input and the
    filter hold. *)
Theorem launch_negative_side_zero input filter output H W R sched :
  shape_ok H W -> Int.INT_MIN <= R <= -2 ->
  sched ≡ₚ grid_workers (plan_grid H W) blockDim16 ->
  length output = Z.to_nat (H * W) ->
  launch sched input filter output H W R blockDim16 =
    Done (replicate (Z.to_nat (H * W)) f0).
Proof.
  intros Hshape HR Hperm Hlen.
  apply (launch_done_iff input filter H W R Hshape sched output _ Hperm Hlen).
  split; [by rewrite length_replicate|].
  intros row col Hrow Hcol. exists f0. split; [by apply window_sum_negative_side|].
  apply lookup_replicate_2.
  pose proof (flat_index_bounds H W row col Hrow Hcol). lia.
Qed.

(** X2. On a well-formed problem at least as wide as tall ([H <= W], odd
    [R]) no access leaves its buffer and every run of the planned grid ends;
    the output at [(row, col)] is the sum of the contract restricted to the
    taps whose column is below [H] (instead of below [W]). *)
Theorem launch_wide_closed_form input filter output H W R sched :
  shape_ok H W -> window_ok H W R -> H <= W ->
  length input = Z.to_nat (H * W) -> length filter = Z.to_nat (R * R) ->
  sched ≡ₚ grid_workers (plan_grid H W) blockDim16 ->
  length output = Z.to_nat (H * W) ->
  launch sched input filter output H W R blockDim16 =
    Done ((fun k => conv_sum H input filter H W R (k `div` W) (k `mod` W))
            <$> seqZ 0 (H * W)).
Proof. apply launch_closed. Qed.
End Filters.

(** ** The workers of the grid *)

Lemma NoDup_indices d : NoDup (indices d).
Proof.
  unfold indices.
  apply NoDup_bind; [| |apply NoDup_seqZ].
  - intros z1 z2 i _ _ H1 H2.
    apply list_elem_of_bind in H1 as (y1 & H1 & _), H2 as (y2 & H2 & _).
    apply list_elem_of_bind in H1 as (x1 & H1 & _), H2 as (x2 & H2 & _).
    apply list_elem_of_singleton in H1, H2. congruence.
  - intros z _. apply NoDup_bind; [| |apply NoDup_seqZ].
    + intros y1 y2 i _ _ H1 H2.
      apply list_elem_of_bind in H1 as (x1 & H1 & _), H2 as (x2 & H2 & _).
      apply list_elem_of_singleton in H1, H2. congruence.
    + intros y _. apply NoDup_bind; [| |apply NoDup_seqZ].
      * intros x1 x2 i _ _ H1 H2.
        apply list_elem_of_singleton in H1, H2. congruence.
      * intros x _. apply NoDup_singleton.
Qed.

Lemma NoDup_grid_workers gridDim blockDim : NoDup (grid_workers gridDim blockDim).
Proof.
  unfold grid_workers. apply NoDup_bind; [| |apply NoDup_indices].
  - intros b1 b2 w _ _ H1 H2.
    apply list_elem_of_bind in H1 as (t1 & H1 & _), H2 as (t2 & H2 & _).
    apply list_elem_of_singleton in H1, H2. congruence.
  - intros b _. apply NoDup_bind; [| |apply NoDup_indices].
    + intros t1 t2 w _ _ H1 H2.
      apply list_elem_of_singleton in H1, H2. congruence.
    + intros t _. apply NoDup_singleton.
Qed.

Lemma length_bind_const {A B} (f : A -> list B) (l : list A) (n : nat) :
  (forall x, x ∈ l -> length (f x) = n) -> length (l ≫= f) = (length l * n)%nat.
Proof.
  induction l as [|x l IH]; intros Hf; csimpl; [done|].
  rewrite length_app, Hf by left. rewrite IH; [lia|].
  intros y Hy. apply Hf. by right.
Qed.

Lemma length_indices d :
  length (indices d) = (Z.to_nat (dz d) * (Z.to_nat (dy d) * Z.to_nat (dx d)))%nat.
Proof.
  unfold indices.
  rewrite (length_bind_const _ _ (Z.to_nat (dy d) * Z.to_nat (dx d))), length_seqZ; [done|].
  intros z _.
  rewrite (length_bind_const _ _ (Z.to_nat (dx d))), length_seqZ; [done|].
  intros y _.
  rewrite (length_bind_const _ _ 1), length_seqZ; [lia | done].
Qed.

(** X8. Every coordinate of the matrix belongs to exactly one worker of the
    planned grid, and the grid holds no worker twice: every element of the
    output is stored by one worker, once. *)
Theorem grid_one_worker_per_coordinate H W row col :
  shape_ok H W -> 0 <= row < H -> 0 <= col < W ->
  NoDup (grid_workers (plan_grid H W) blockDim16) /\
  exists w, w ∈ grid_workers (plan_grid H W) blockDim16 /\
            row_of w = row /\ col_of w = col /\
            forall w', w' ∈ grid_workers (plan_grid H W) blockDim16 ->
                       row_of w' = row -> col_of w' = col -> w' = w.
Proof.
  intros Hshape Hrow Hcol. split; [apply NoDup_grid_workers|].
  destruct (shape_ok_fits H W Hshape) as (HH & HW & HfH & HfW & _).
  destruct (grid_covers H W row col) as (b & t & Hin & Hr & Hc); [done..|].
  exists (b, t). split; [done|]. split; [done|]. split; [done|].
  intros w' Hin' Hr' Hc'.
  apply (grid_slots_disjoint H W); try done.
  - unfold inside. lia.
  - unfold inside, row_of, col_of. simpl. lia.
  - unfold row_of, col_of in *. simpl. lia.
Qed.

(** X9. The planned grid holds [256 * ceil(W/16) * ceil(H/16)] workers, and
    it overshoots the matrix by less than one tile in each direction: every
    worker has a row in [0, H + 15) and a column in [0, W + 15). *)
Theorem grid_size_and_overshoot H W :
  shape_ok H W ->
  Z.of_nat (length (grid_workers (plan_grid H W) blockDim16)) =
    256 * (ceil_div W 16 * ceil_div H 16) /\
  forall w, w ∈ grid_workers (plan_grid H W) blockDim16 ->
    0 <= row_of w < 16 * ceil_div H 16 /\ 16 * ceil_div H 16 < H + 16 /\
    0 <= col_of w < 16 * ceil_div W 16 /\ 16 * ceil_div W 16 < W + 16.
Proof.
  intros Hshape.
  destruct (shape_ok_fits H W Hshape) as (HH & HW & HfH & HfW & _).
  pose proof (ceil_div_spec W 16 ltac:(lia)).
  pose proof (ceil_div_spec H 16 ltac:(lia)).
  split.
  - unfold grid_workers.
    rewrite (length_bind_const _ _ 256).
    + rewrite length_indices, plan_grid_eq by done. simpl. lia.
    + intros b _. rewrite (length_bind_const _ _ 1); [|done].
      by rewrite length_indices.
  - intros [b t] Hin.
    destruct (grid_worker_coords H W b t) as (Hr & Hc & _); [done..|].
    apply elem_of_grid_workers in Hin as [Hb Ht].
    rewrite plan_grid_eq in Hb by done.
    apply elem_of_indices in Hb, Ht. simpl in Hb, Ht.
    unfold row_of, col_of. simpl. rewrite Hr, Hc. lia.
Qed.

(** ** Instances *)

Lemma grid_one_worker_per_coordinate_witness :
  exists w, w ∈ grid_workers (plan_grid 2 3) blockDim16 /\
            row_of w = 1 /\ col_of w = 2 /\
            forall w', w' ∈ grid_workers (plan_grid 2 3) blockDim16 ->
                       row_of w' = 1 -> col_of w' = 2 -> w' = w.
Proof.
  apply (grid_one_worker_per_coordinate 2 3 1 2); [|lia|lia].
  unfold shape_ok, Int.INT_MAX. lia.
Defined.

Lemma grid_size_and_overshoot_witness :
  Z.of_nat (length (grid_workers (plan_grid 17 40) blockDim16)) = 256 * (3 * 2).
Proof.
  apply (grid_size_and_overshoot 17 40). unfold shape_ok, Int.INT_MAX. lia.
Defined.

Lemma launch_square_contract_witness :
  launch (reverse (grid_workers (plan_grid 2 2) blockDim16))
    [qz 1; qz 2; qz 3; qz 4] ones_3x3 (replicate 4 (qz 7)) 2 2 3 blockDim16 =
  Done ((fun k => conv_spec [qz 1; qz 2; qz 3; qz 4] ones_3x3 2 2 3 (k `div` 2) (k `mod` 2))
          <$> seqZ 0 (2 * 2)).
Proof.
  apply (launch_square_contract (F := Qc)).
  - unfold shape_ok, Int.INT_MAX. lia.
  - unfold window_ok, Int.INT_MAX. repeat split; lia.
  - reflexivity.
  - reflexivity.
  - apply reverse_Permutation.
  - reflexivity.
Defined.

Lemma launch_wide_closed_form_witness :
  launch (grid_workers (plan_grid 2 3) blockDim16)
    mat_2x3 ones_3x3 (replicate 6 (qz 7)) 2 3 3 blockDim16 =
  Done ((fun k => conv_sum 2 mat_2x3 ones_3x3 2 3 3 (k `div` 3) (k `mod` 3))
          <$> seqZ 0 (2 * 3)).
Proof.
  apply (launch_wide_closed_form (F := Qc)).
  - unfold shape_ok, Int.INT_MAX. lia.
  - unfold window_ok, Int.INT_MAX. repeat split; lia.
  - lia.
  - reflexivity.
  - reflexivity.
  - reflexivity.
  - reflexivity.
Defined.

Lemma launch_tall_reads_outside_input_witness :
  exists k,
    launch (grid_workers (plan_grid 3 2) blockDim16)
      (qz <$> [1; 2; 3; 4; 5; 6]) ones_3x3 (replicate 6 (qz 0)) 3 2 3 blockDim16
    = Fault (RdInput k) /\ ~ (0 <= k < 3 * 2).
Proof.
  apply (launch_tall_reads_outside_input (F := Qc)).
  - unfold shape_ok, Int.INT_MAX. lia.
  - unfold window_ok, Int.INT_MAX. repeat split; lia.
  - lia.
  - lia.
  - reflexivity.
  - reflexivity.
  - reflexivity.
  - reflexivity.
Defined.

Lemma launch_fault_is_input_read_witness :
  exists k, RdInput 6 = RdInput k /\
            ~ (0 <= k < Z.of_nat (length (qz <$> [1; 2; 3; 4; 5; 6]))).
Proof.
  apply (launch_fault_is_input_read (F := Qc) (qz <$> [1; 2; 3; 4; 5; 6]) ones_3x3
           (replicate 6 (qz 0)) 3 2 3 (grid_workers (plan_grid 3 2) blockDim16)).
  - unfold shape_ok, Int.INT_MAX. lia.
  - lia.
  - reflexivity.
  - unfold Int.INT_MAX. lia.
  - reflexivity.
  - reflexivity.
  - reflexivity.
  - reflexivity.
Defined.

Lemma launch_even_filter_reads_outside_witness :
  exists k,
    launch (grid_workers (plan_grid 2 2) blockDim16)
      [qz 1; qz 2; qz 3; qz 4] (replicate 4 (qz 1)) (replicate 4 (qz 0)) 2 2 2 blockDim16
    = Fault (RdFilter k) /\ ~ (0 <= k < 2 * 2).
Proof.
  apply (launch_even_filter_reads_outside (F := Qc)).
  - unfold shape_ok, Int.INT_MAX. lia.
  - lia.
  - reflexivity.
  - unfold Int.INT_MAX. lia.
  - unfold Int.INT_MAX. lia.
  - unfold Int.INT_MAX. lia.
  - reflexivity.
  - lia.
  - reflexivity.
  - reflexivity.
  - reflexivity.
  - reflexivity.
Defined.

Lemma launch_1x1_filter_witness :
  launch (grid_workers (plan_grid 3 2) blockDim16)
    (qz <$> [1; 2; 3; 4; 5; 6]) [qz 2] (replicate 6 (qz 0)) 3 2 1 blockDim16 =
  Done ((fun k => if k `mod` 2 <? 3
                  then fadd f0 (fmul (at2 (qz <$> [1; 2; 3; 4; 5; 6]) 2
                                          (k `div` 2) (k `mod` 2)) (qz 2))
                  else f0) <$> seqZ 0 (3 * 2)).
Proof.
  apply (launch_1x1_filter (F := Qc) (qz <$> [1; 2; 3; 4; 5; 6]) [qz 2]
           (replicate 6 (qz 0)) 3 2 (grid_workers (plan_grid 3 2) blockDim16) (qz 2)).
  - unfold shape_ok, Int.INT_MAX. lia.
  - reflexivity.
  - reflexivity.
  - reflexivity.
  - reflexivity.
Defined.

Lemma launch_negative_side_zero_witness :
  launch (grid_workers (plan_grid 2 3) blockDim16)
    mat_2x3 ones_3x3 (replicate 6 (qz 7)) 2 3 (-3) blockDim16 =
  Done (replicate 6 (qz 0)).
Proof.
  change (replicate 6 (qz 0)) with (replicate (Z.to_nat (2 * 3)) (f0 : Qc)).
  apply (launch_negative_side_zero (F := Qc) mat_2x3 ones_3x3 (replicate 6 (qz 7))
           2 3 (-3) (grid_workers (plan_grid 2 3) blockDim16)).
  - unfold shape_ok, Int.INT_MAX. lia.
  - unfold Int.INT_MIN. lia.
  - reflexivity.
  - reflexivity.
Defined.

(** ** The host program: reading and writing *)

Section HostIO.
Context {F : Type} {SF : Scalar F}.
Implicit Types (e : env F) (H W R : Z).

Lemma bind_Ret_l {A B} (t : list (event F)) (a : A) (k : A -> run F B) :
  Ret t a ≫= k = after t (k a).
Proof. done. Qed.

Lemma bind_emit {B} (ev : event F) (k : unit -> run F B) :
  emit ev ≫= k = after [ev] (k tt).
Proof. done. Qed.

Lemma float_bytes_small n :
  0 <= n -> 4 * n <= Int.INT_MAX -> float_bytes n = 4 * n.
Proof.
  intros Hn Hmax. unfold float_bytes, Size.mul, Size.wrap, Size.sizeof_float, Int.INT_MAX in *.
  assert (2147483647 < 2 ^ 64) by done.
  rewrite (Z.mod_small n), (Z.mod_small (n * 4)) by lia. lia.
Qed.

(** The element loop when the byte count fits [int], the allocation
    succeeds and the file holds enough tokens. *)
Lemma read_elements_ok e b n toks :
  malloc_null e b = false -> 0 <= n -> 4 * n <= Int.INT_MAX ->
  n <= Z.of_nat (length toks) ->
  read_elements e b n (Int.wrap (float_bytes n)) toks =
    Ret [HostAlloc (4 * n)] (Some (take (Z.to_nat n) toks)).
Proof.
  intros Hnull Hn Hmax Hlen. unfold read_elements.
  rewrite float_bytes_small by done.
  rewrite Int_wrap_fits by (unfold Int.fits, Int.INT_MIN, Int.INT_MAX in *; lia).
  assert (Hw : Size.wrap (4 * n) = 4 * n).
  { unfold Size.wrap, Int.INT_MAX in *. assert (2147483647 < 2 ^ 64) by done.
    apply Z.mod_small. lia. }
  rewrite Hw, Hnull. unfold Size.sizeof_float.
  rewrite (Z.mul_comm 4 n), Z.div_mul by lia.
  rewrite Z.min_l by lia.
  destruct (Z.ltb_spec n n); [lia|].
  destruct (Z.ltb_spec (Z.of_nat (length toks)) n); [lia|]. done.
Qed.

(** Whatever it returns, the element loop returns the first [n] tokens. *)
Lemma read_elements_ret e b n size toks t buf :
  read_elements e b n size toks = Ret t buf ->
  t = [HostAlloc (Size.wrap size)] /\
  match buf with
  | Some l => malloc_null e b = false /\ l = take (Z.to_nat n) toks /\
              length l = Z.to_nat n
  | None => malloc_null e b = true /\ n <= 0
  end.
Proof.
  unfold read_elements. set (cap := if malloc_null e b then 0 else _).
  simpl. destruct (Z.ltb_spec cap (Z.min n (Z.of_nat (length toks)))); [done|].
  destruct (Z.ltb_spec (Z.of_nat (length toks)) n); [done|].
  simpl. intros [= <- <-]. split; [done|].
  destruct (malloc_null e b) eqn:Hnull.
  - split; [done|]. subst cap. lia.
  - split; [done|]. split; [done|]. rewrite length_take. lia.
Qed.

(** X11. A matrix that [readInput] returns holds exactly [H * W] elements
    (the product as [int]), the first [H * W] numeric tokens that follow the
    header; the only effects were opening the file and one allocation. *)
Theorem readInput_returns_matrix e fileName t h_input H W :
  readInput e fileName = Ret t (Some h_input, H, W) ->
  exists toks,
    input_file e fileName = Some (H, W, toks) /\
    h_input = take (Z.to_nat (Int.mul H W)) toks /\
    length h_input = Z.to_nat (Int.mul H W) /\
    t = [OpenFile fileName;
         HostAlloc (Size.wrap (Int.wrap (float_bytes (Int.mul H W))))].
Proof.
  unfold readInput. rewrite bind_emit.
  destruct (input_file e fileName) as [[[H' W'] toks]|]; [|done].
  destruct (read_elements _ _ _ _ _) as [t' buf|] eqn:Hread; [|done].
  simpl. intros [= <- -> -> ->].
  apply read_elements_ret in Hread as [-> (_ & -> & Hlen)].
  exists toks. by rewrite app_nil_r.
Qed.

(** X12. The same for the filter: what [readFilter] returns holds exactly
    [R * R] elements, the first tokens after the side [R]. *)
Theorem readFilter_returns_filter e fileName t h_filter R :
  readFilter e fileName = Ret t (Some h_filter, R) ->
  exists toks,
    filter_file e fileName = Some (R, toks) /\
    h_filter = take (Z.to_nat (Int.mul R R)) toks /\
    length h_filter = Z.to_nat (Int.mul R R) /\
    t = [OpenFile fileName;
         HostAlloc (Size.wrap (Int.wrap (float_bytes (Int.mul R R))))].
Proof.
  unfold readFilter. rewrite bind_emit.
  destruct (filter_file e fileName) as [[R' toks]|]; [|done].
  destruct (read_elements _ _ _ _ _) as [t' buf|] eqn:Hread; [|done].
  simpl. intros [= <- -> ->].
  apply read_elements_ret in Hread as [-> (_ & -> & Hlen)].
  exists toks. by rewrite app_nil_r.
Qed.

(** X13. [readInput] does not test what [malloc] returned: when the
    allocation fails and there is an element to store, the loop stores
    through the null pointer, which is undefined behaviour; the test of
    [main] (after both files are read) comes too late for it.  [readInput]
    hands a null buffer back only when it stored nothing, [H * W <= 0]. *)
Theorem readInput_null_buffer e fileName H W tok toks :
  input_file e fileName = Some (H, W, tok :: toks) ->
  malloc_null e HInput = true ->
  (0 < Int.mul H W ->
   readInput e fileName =
     Halt [OpenFile fileName;
           HostAlloc (Size.wrap (Int.wrap (float_bytes (Int.mul H W))))] Undefined) /\
  (forall t h_input H' W',
     readInput e fileName = Ret t (h_input, H', W') ->
     h_input = None /\ Int.mul H W <= 0).
Proof.
  intros Hfile Hnull. unfold readInput. rewrite bind_emit, Hfile.
  unfold read_elements. rewrite Hnull, bind_emit. split.
  - intros Hn.
    destruct (Z.ltb_spec 0 (Z.min (Int.mul H W) (Z.of_nat (length (tok :: toks)))));
      [done | simpl length in *; lia].
  - intros t h_input H' W'.
    destruct (Z.ltb_spec 0 (Z.min (Int.mul H W) (Z.of_nat (length (tok :: toks)))));
      [done|].
    destruct (Z.ltb_spec (Z.of_nat (length (tok :: toks))) (Int.mul H W)); [done|].
    simpl. intros [= _ <- _ _]. split; [done|]. simpl length in *. lia.
Qed.

(** X14. The byte count [H * W * sizeof(float)] is stored in an [int]: for
    [2^30 <= H * W < 2^30 + 2^29] it wraps to [4 * (H * W - 2^30)], the
    buffer holds [H * W - 2^30] elements only, and as soon as the file has
    more tokens than that the loop stores past its end. *)
Theorem readInput_size_wraps e fileName H W toks :
  input_file e fileName = Some (H, W, toks) ->
  2 ^ 30 <= H * W < 2 ^ 30 + 2 ^ 29 ->
  H * W - 2 ^ 30 < Z.of_nat (length toks) ->
  readInput e fileName =
    Halt [OpenFile fileName; HostAlloc (4 * (H * W - 2 ^ 30))] Undefined.
Proof.
  intros Hfile Hn Htoks. unfold readInput. rewrite bind_emit, Hfile.
  change (2 ^ 30) with 1073741824 in *. change (2 ^ 29) with 536870912 in *.
  rewrite Int_mul_fits by (unfold Int.fits, Int.INT_MIN, Int.INT_MAX; lia).
  set (n := H * W) in *.
  assert (Hbytes : float_bytes n = 4 * n).
  { unfold float_bytes, Size.mul, Size.wrap, Size.sizeof_float.
    change (2 ^ 64) with 18446744073709551616.
    rewrite (Z.mod_small n), (Z.mod_small (n * 4)) by lia. lia. }
  assert (Hsize : Int.wrap (4 * n) = 4 * (n - 1073741824)).
  { unfold Int.wrap. change (2 ^ 31) with 2147483648. change (2 ^ 32) with 4294967296.
    replace (4 * n + 2147483648) with (4 * (n - 1073741824) + 2147483648 + 1 * 4294967296)
      by lia.
    rewrite Z.mod_add by lia. rewrite Z.mod_small by lia. lia. }
  rewrite Hbytes, Hsize. unfold read_elements. rewrite bind_emit.
  assert (Hw : Size.wrap (4 * (n - 1073741824)) = 4 * (n - 1073741824)).
  { unfold Size.wrap. change (2 ^ 64) with 18446744073709551616.
    apply Z.mod_small. lia. }
  rewrite Hw. unfold Size.sizeof_float.
  rewrite (Z.mul_comm 4 (n - 1073741824)), Z.div_mul by lia.
  set (cap := if malloc_null e HInput then 0 else n - 1073741824).
  assert (cap <= n - 1073741824) by (subst cap; destruct (malloc_null e HInput); lia).
  destruct (Z.ltb_spec cap (Z.min n (Z.of_nat (length toks)))); [|lia].
  reflexivity.
Qed.

(** Printing a run of consecutive elements. *)
Lemma print_range (l : list F) (g : Z -> Z) (n : nat) (a s : Z) :
  (forall j, a <= j < a + Z.of_nat n -> g j = s + (j - a)) ->
  0 <= s -> s + Z.of_nat n <= Z.of_nat (length l) ->
  for_each_run (fun j => match l !! Z.to_nat (g j) with
                         | Some v => emit (PrintValue v)
                         | None => halt Undefined
                         end) (seqZ a (Z.of_nat n))
  = Ret (PrintValue <$> take n (drop (Z.to_nat s) l)) tt.
Proof.
  revert a s. induction n as [|n IH]; intros a s Hg Hs Hlen.
  - by rewrite seqZ_nil by lia.
  - rewrite seqZ_cons by lia. simpl for_each_run.
    rewrite Hg, Z.sub_diag, Z.add_0_r by lia.
    destruct (lookup_lt_is_Some_2 l (Z.to_nat s)) as [v Hv]; [lia|].
    rewrite Hv, bind_emit.
    replace (Z.pred (Z.of_nat (S n))) with (Z.of_nat n) by lia.
    rewrite (IH (Z.succ a) (s + 1)) by (try lia; intros j Hj; rewrite Hg; lia).
    simpl. rewrite (drop_S l v (Z.to_nat s) Hv).
    replace (Z.to_nat (s + 1)) with (S (Z.to_nat s)) by lia. done.
Qed.

(** [writeOutput] on a buffer of [H * W] elements. *)
Lemma writeOutput_prints (h_output : list F) H W :
  0 <= H -> 0 <= W -> H * W <= Int.INT_MAX ->
  length h_output = Z.to_nat (H * W) ->
  writeOutput h_output H W = Ret (PrintValue <$> h_output) tt.
Proof.
  intros HH HW HHW Hlen. unfold writeOutput.
  set (row := fun i : Z =>
    for_each_run (fun j =>
      match h_output !! Z.to_nat (Int.add (Int.mul i W) j) with
      | Some v => emit (PrintValue v)
      | None => halt Undefined
      end) (seqZ 0 W)).
  assert (Hrow : forall i, 0 <= i < H ->
    row i = Ret (PrintValue <$> take (Z.to_nat W) (drop (Z.to_nat (i * W)) h_output)) tt).
  { intros i Hi. subst row. simpl.
    pose proof (print_range h_output (fun j => Int.add (Int.mul i W) j)
                  (Z.to_nat W) 0 (i * W)) as Hp.
    rewrite Z2Nat.id in Hp by lia. apply Hp; [|nia..].
    intros j Hj. unfold Int.INT_MAX in *.
    rewrite (flat_index_int H W)
      by (try lia; unfold Int.fits, Int.INT_MIN, Int.INT_MAX; nia). lia. }
  assert (Hrows : forall (n : nat) (a : Z),
    0 <= a -> a + Z.of_nat n <= H ->
    for_each_run row (seqZ a (Z.of_nat n))
    = Ret (PrintValue <$> take (n * Z.to_nat W) (drop (Z.to_nat (a * W)) h_output)) tt).
  { induction n as [|n IH]; intros a Ha Hn.
    - by rewrite (seqZ_nil a) by lia.
    - rewrite (seqZ_cons a) by lia. simpl for_each_run.
      rewrite Hrow, bind_Ret_l by lia.
      replace (Z.pred (Z.of_nat (S n))) with (Z.of_nat n) by lia.
      rewrite IH by lia. simpl.
      rewrite <- fmap_app. do 2 f_equal.
      replace (Z.to_nat (Z.succ a * W)) with (Z.to_nat (a * W) + Z.to_nat W)%nat by nia.
      rewrite <- drop_drop. apply take_take_drop. }
  pose proof (Hrows (Z.to_nat H) 0 ltac:(lia) ltac:(lia)) as Hall.
  rewrite Z2Nat.id in Hall by lia. rewrite Hall. simpl.
  rewrite drop_0, take_ge by nia. done.
Qed.

(** X10. [writeOutput] prints the [H * W] elements of the buffer in
    row-major order, each once, and nothing else (for a buffer of [H * W]
    elements, [H * W] in the range of [int]). *)
Theorem writeOutput_row_major (h_output : list F) H W :
  0 <= H -> 0 <= W -> H * W <= Int.INT_MAX ->
  length h_output = Z.to_nat (H * W) ->
  writeOutput h_output H W = Ret (PrintValue <$> h_output) tt.
Proof. apply writeOutput_prints. Qed.
End HostIO.

Lemma readInput_null_buffer_witness :
  let e := device_env (Some (1, 2, [qz 1; qz 2])) (fun _ => false) (fun _ => true) in
  (0 < Int.mul 1 2 ->
   readInput e "input.txt" =
     Halt [OpenFile "input.txt";
           HostAlloc (Size.wrap (Int.wrap (float_bytes (Int.mul 1 2))))] Undefined) /\
  (forall t h_input H' W',
     readInput e "input.txt" = Ret t (h_input, H', W') ->
     h_input = None /\ Int.mul 1 2 <= 0).
Proof.
  apply (readInput_null_buffer
           (device_env (Some (1, 2, [qz 1; qz 2])) (fun _ => false) (fun _ => true))
           "input.txt" 1 2 (qz 1) [qz 2]).
  - reflexivity.
  - reflexivity.
Defined.

Lemma readInput_size_wraps_witness :
  readInput
    {| input_file := fun _ => Some (32768, 32768, [qz 1]);
       filter_file := fun _ => None;
       malloc_null := fun _ => false;
       cuda_fails := fun _ => false;
       fresh_device_memory := [];
       schedule := fun l => l;
       schedule_perm := fun l => reflexivity l |} "input.txt"
  = Halt [OpenFile "input.txt"; HostAlloc (4 * (32768 * 32768 - 2 ^ 30))] Undefined.
Proof.
  apply (readInput_size_wraps _ "input.txt" 32768 32768 [qz 1]).
  - reflexivity.
  - lia.
  - simpl. lia.
Defined.

Lemma writeOutput_row_major_witness :
  writeOutput mat_2x3 2 3 = Ret (PrintValue <$> mat_2x3) tt.
Proof.
  apply writeOutput_row_major; [lia | lia | unfold Int.INT_MAX; lia | reflexivity].
Defined.

Lemma readInput_returns_matrix_witness :
  exists toks,
    input_file quiet_env "input.txt" = Some (3, 3, toks) /\
    mat_3x3 = take (Z.to_nat (Int.mul 3 3)) toks /\
    length mat_3x3 = Z.to_nat (Int.mul 3 3) /\
    [@OpenFile Qc "input.txt"; HostAlloc 36] =
      [OpenFile "input.txt";
       HostAlloc (Size.wrap (Int.wrap (float_bytes (Int.mul 3 3))))].
Proof.
  apply (readInput_returns_matrix quiet_env "input.txt"
           [OpenFile "input.txt"; HostAlloc 36] mat_3x3 3 3).
  reflexivity.
Defined.

Lemma readFilter_returns_filter_witness :
  exists toks,
    filter_file quiet_env "filter.txt" = Some (3, toks) /\
    box_blur = take (Z.to_nat (Int.mul 3 3)) toks /\
    length box_blur = Z.to_nat (Int.mul 3 3) /\
    [@OpenFile Qc "filter.txt"; HostAlloc 36] =
      [OpenFile "filter.txt";
       HostAlloc (Size.wrap (Int.wrap (float_bytes (Int.mul 3 3))))].
Proof.
  apply (readFilter_returns_filter quiet_env "filter.txt"
           [OpenFile "filter.txt"; HostAlloc 36] box_blur 3).
  reflexivity.
Defined.

(** ** The host program: the whole run *)

Section HostRun.
Context {F : Type} {SF : Scalar F}.
Implicit Types (e : env F) (H W R : Z).

Lemma bind_Halt_l {A B} (t : list (event F)) (x : ending) (k : A -> run F B) :
  Halt t x ≫= k = Halt t x.
Proof. done. Qed.

Lemma checked_ok e c ev msg :
  cuda_fails e c = false -> checked e c ev msg = Ret [ev] tt.
Proof. intros Hc. unfold checked. by rewrite bind_emit, Hc. Qed.

Lemma checked_fail e c ev msg :
  cuda_fails e c = true ->
  checked e c ev msg = Halt [ev; Stderr msg] (Exit EXIT_FAILURE).
Proof. intros Hc. unfold checked. by rewrite bind_emit, Hc. Qed.

Lemma exit_status_after t (r : run F Z) : exit_status (after t r) = exit_status r.
Proof. by destruct r as [|? []]. Qed.

Lemma effects_after t (r : run F Z) : effects (after t r) = t ++ effects r.
Proof. by destruct r. Qed.

Lemma print_values_app (t1 t2 : list (event F)) :
  print_values (t1 ++ t2) = print_values t1 ++ print_values t2.
Proof. apply omap_app. Qed.

Lemma print_values_fmap (l : list F) : print_values (PrintValue <$> l) = l.
Proof.
  unfold print_values. induction l as [|x l IH]; [done|].
  rewrite fmap_cons. simpl. f_equal. exact IH.
Qed.

Lemma readInput_ok e fileName H W toks :
  input_file e fileName = Some (H, W, toks) ->
  malloc_null e HInput = false ->
  0 <= H * W -> 4 * (H * W) <= Int.INT_MAX ->
  H * W <= Z.of_nat (length toks) ->
  readInput e fileName =
    Ret [OpenFile fileName; HostAlloc (4 * (H * W))]
        (Some (take (Z.to_nat (H * W)) toks), H, W).
Proof.
  intros Hfile Hnull Hn Hmax Hlen. unfold readInput.
  rewrite bind_emit, Hfile.
  rewrite Int_mul_fits by (unfold Int.fits, Int.INT_MIN, Int.INT_MAX in *; lia).
  by rewrite read_elements_ok.
Qed.

Lemma readFilter_ok e fileName R toks :
  filter_file e fileName = Some (R, toks) ->
  malloc_null e HFilter = false ->
  4 * (R * R) <= Int.INT_MAX ->
  R * R <= Z.of_nat (length toks) ->
  readFilter e fileName =
    Ret [OpenFile fileName; HostAlloc (4 * (R * R))]
        (Some (take (Z.to_nat (R * R)) toks), R).
Proof.
  intros Hfile Hnull Hmax Hlen. unfold readFilter.
  rewrite bind_emit, Hfile.
  rewrite Int_mul_fits by (unfold Int.fits, Int.INT_MIN, Int.INT_MAX in *; nia).
  rewrite read_elements_ok by (done || nia). done.
Qed.

Lemma after_after {A} (t1 t2 : list (event F)) (r : run F A) :
  after t1 (after t2 r) = after (t1 ++ t2) r.
Proof. destruct r; simpl; by rewrite (assoc_L (++)). Qed.

Lemma bind_after {A B} (t : list (event F)) (r : run F A) (k : A -> run F B) :
  after t r ≫= k = after t (r ≫= k).
Proof.
  destruct r as [t' a|t' x]; simpl; [|done].
  destruct (k a); simpl; by rewrite (assoc_L (++)).
Qed.

(** [main] up to the kernel launch, by forward execution: the arguments,
    the two files, the device allocations and the copies. *)
Ltac main_to_launch Hmain e H W R toks ftoks Hcuda :=
  unfold main at 2 in Hmain;
  match type of Hmain with context [?a <? 3] =>
    destruct (Z.ltb_spec a 3); [lia|] end;
  rewrite (readInput_ok e _ H W toks) in Hmain by (done || nia);
  rewrite bind_Ret_l in Hmain; cbv beta iota in Hmain;
  rewrite (readFilter_ok e _ R ftoks) in Hmain by done;
  rewrite bind_Ret_l in Hmain; cbv beta iota in Hmain;
  rewrite bind_emit in Hmain;
  rewrite (checked_ok e MallocInput), bind_Ret_l in Hmain by (apply Hcuda; simpl; tauto);
  rewrite (checked_ok e MallocFilter), bind_Ret_l in Hmain by (apply Hcuda; simpl; tauto);
  rewrite (checked_ok e MallocOutput), bind_Ret_l, bind_emit in Hmain
    by (apply Hcuda; simpl; tauto);
  rewrite (checked_ok e MemcpyInput), bind_Ret_l in Hmain by (apply Hcuda; simpl; tauto);
  rewrite (checked_ok e MemcpyFilter), bind_Ret_l, !bind_emit in Hmain
    by (apply Hcuda; simpl; tauto);
  rewrite (checked_ok e LaunchKernel), bind_Ret_l in Hmain by (apply Hcuda; simpl; tauto);
  rewrite (Int_mul_fits H W) in Hmain
    by (unfold Int.fits, Int.INT_MIN, Int.INT_MAX in *; nia).

(** Up to the end of the printing: when [H <= W], the arguments, files and
    allocations are in order and no CUDA call before the teardown fails,
    [main] prints exactly the kernel's sums and goes on to the teardown. *)
Lemma main_until_teardown e argc argv H W R toks ftoks :
  3 <= argc ->
  input_file e (default EmptyString (argv !! 1%nat)) = Some (H, W, toks) ->
  filter_file e (default EmptyString (argv !! 2%nat)) = Some (R, ftoks) ->
  shape_ok H W -> window_ok H W R -> H <= W ->
  4 * (H * W) <= Int.INT_MAX -> 4 * (R * R) <= Int.INT_MAX ->
  H * W <= Z.of_nat (length toks) -> R * R <= Z.of_nat (length ftoks) ->
  (forall b, malloc_null e b = false) ->
  (forall c, In c [MallocInput; MallocFilter; MallocOutput; MemcpyInput;
                   MemcpyFilter; LaunchKernel; MemcpyOutput] ->
             cuda_fails e c = false) ->
  let input := take (Z.to_nat (H * W)) toks in
  let filter := take (Z.to_nat (R * R)) ftoks in
  exists pre, print_values pre = [] /\
    main e argc argv =
      after pre (after (PrintValue <$>
          ((fun k => conv_sum H input filter H W R (k `div` W) (k `mod` W))
             <$> seqZ 0 (H * W)))
        (emit (Stdout "Test Completed");;
         checked e FreeInput DeviceFree "Failed to free device input matrix";;
         checked e FreeFilter DeviceFree "Failed to free device filter matrix";;
         checked e FreeOutput DeviceFree "Failed to free device output matrix";;
         emit HostFree;; emit HostFree;; emit HostFree;;
         checked e ResetDevice DeviceReset "Failed to deinitialize the device!";;
         emit (Stdout "Done");;
         Ret [] 0)).
Proof.
  intros Hargc Hif Hff Hshape Hwin Hle H4 R4 Htoks Hftoks Hmalloc Hcuda input filter.
  pose proof Hshape as (HH & HW & HHW & _).
  assert (Hmain : main e argc argv = main e argc argv) by done.
  main_to_launch Hmain e H W R toks ftoks Hcuda.
  rewrite (launch_closed input filter _ H W R) in Hmain;
    [|done|done|done|by (subst input; rewrite length_take; nia)
     |by (subst filter; rewrite length_take; nia)
     |apply schedule_perm|by rewrite length_resize].
  rewrite bind_emit, Hmalloc, bind_emit in Hmain.
  rewrite (checked_ok e MemcpyOutput), bind_Ret_l in Hmain by (apply Hcuda; simpl; tauto).
  rewrite writeOutput_prints, bind_Ret_l in Hmain
    by (rewrite ?length_fmap, ?length_seqZ; unfold Int.INT_MAX in *; lia).
  rewrite !after_after in Hmain.
  match type of Hmain with _ = after ((?p ++ _) ++ _) _ => exists p end.
  split; [done|].
  rewrite Hmain, !bind_emit, !after_after. done.
Qed.

(** The teardown prints no value; it ends with [EXIT_FAILURE] as soon as one
    of its four checked calls fails, and with 0 otherwise. *)
Lemma teardown_status e :
  let r :=
    emit (Stdout "Test Completed");;
    checked e FreeInput DeviceFree "Failed to free device input matrix";;
    checked e FreeFilter DeviceFree "Failed to free device filter matrix";;
    checked e FreeOutput DeviceFree "Failed to free device output matrix";;
    emit HostFree;; emit HostFree;; emit HostFree;;
    checked e ResetDevice DeviceReset "Failed to deinitialize the device!";;
    emit (Stdout "Done");;
    Ret [] 0 in
  print_values (effects r) = [] /\
  exit_status r =
    Some (if cuda_fails e FreeInput || cuda_fails e FreeFilter
             || cuda_fails e FreeOutput || cuda_fails e ResetDevice
          then EXIT_FAILURE else 0).
Proof.
  unfold checked.
  destruct (cuda_fails e FreeInput), (cuda_fails e FreeFilter),
    (cuda_fails e FreeOutput), (cuda_fails e ResetDevice); done.
Qed.

(** X15. The whole program on a square matrix, when nothing fails: [main]
    given two arguments, an input file [H H] with at least [H * H] numbers
    and a filter file [R] (odd) with at least [R * R] numbers, with every
    allocation and every CUDA call succeeding, prints exactly the values of
    the contract, row by row, and returns 0, whatever order the device
    runs the workers in and whatever its fresh memory holds. *)
Theorem main_square_prints_contract e argc argv H R toks ftoks :
  3 <= argc ->
  input_file e (default EmptyString (argv !! 1%nat)) = Some (H, H, toks) ->
  filter_file e (default EmptyString (argv !! 2%nat)) = Some (R, ftoks) ->
  shape_ok H H -> window_ok H H R ->
  4 * (H * H) <= Int.INT_MAX -> 4 * (R * R) <= Int.INT_MAX ->
  H * H <= Z.of_nat (length toks) -> R * R <= Z.of_nat (length ftoks) ->
  (forall b, malloc_null e b = false) -> (forall c, cuda_fails e c = false) ->
  let input := take (Z.to_nat (H * H)) toks in
  let filter := take (Z.to_nat (R * R)) ftoks in
  exit_status (main e argc argv) = Some 0 /\
  print_values (effects (main e argc argv)) =
    (fun k => conv_spec input filter H H R (k `div` H) (k `mod` H)) <$> seqZ 0 (H * H).
Proof.
  intros Hargc Hif Hff Hshape Hwin H4 R4 Htoks Hftoks Hmalloc Hcuda input filter.
  destruct (main_until_teardown e argc argv H H R toks ftoks)
    as (pre & Hpre & ->);
    [done|done|done|done|done|lia|done|done|done|done|done|by intros|].
  destruct (teardown_status e) as [Hp Hs].
  rewrite !exit_status_after, !effects_after, !print_values_app, Hpre, Hp, Hs.
  rewrite !Hcuda, print_values_fmap, app_nil_r. done.
Qed.

(** X16. A failure while the device is torn down comes after the output:
    when [H <= W] and everything up to the printing succeeds, [main] prints
    the kernel's values in full whatever happens afterwards, and its exit
    status is [EXIT_FAILURE] exactly when one of the three [cudaFree] calls
    or [cudaDeviceReset] fails, and 0 otherwise. *)
Theorem main_teardown_failure_after_output e argc argv H W R toks ftoks :
  3 <= argc ->
  input_file e (default EmptyString (argv !! 1%nat)) = Some (H, W, toks) ->
  filter_file e (default EmptyString (argv !! 2%nat)) = Some (R, ftoks) ->
  shape_ok H W -> window_ok H W R -> H <= W ->
  4 * (H * W) <= Int.INT_MAX -> 4 * (R * R) <= Int.INT_MAX ->
  H * W <= Z.of_nat (length toks) -> R * R <= Z.of_nat (length ftoks) ->
  (forall b, malloc_null e b = false) ->
  (forall c, In c [MallocInput; MallocFilter; MallocOutput; MemcpyInput;
                   MemcpyFilter; LaunchKernel; MemcpyOutput] ->
             cuda_fails e c = false) ->
  let input := take (Z.to_nat (H * W)) toks in
  let filter := take (Z.to_nat (R * R)) ftoks in
  print_values (effects (main e argc argv)) =
    ((fun k => conv_sum H input filter H W R (k `div` W) (k `mod` W))
       <$> seqZ 0 (H * W)) /\
  exit_status (main e argc argv) =
    Some (if cuda_fails e FreeInput || cuda_fails e FreeFilter
             || cuda_fails e FreeOutput || cuda_fails e ResetDevice
          then EXIT_FAILURE else 0).
Proof.
  intros Hargc Hif Hff Hshape Hwin Hle H4 R4 Htoks Hftoks Hmalloc Hcuda input filter.
  destruct (main_until_teardown e argc argv H W R toks ftoks)
    as (pre & Hpre & ->); [done..|].
  destruct (teardown_status e) as [Hp Hs].
  rewrite !exit_status_after, !effects_after, !print_values_app, Hpre, Hp, Hs.
  by rewrite print_values_fmap, app_nil_r.
Qed.

(** X17. The whole program on a matrix taller than wide ([W < H]) with a
    filter of odd side 3 or more, the files well formed and no allocation
    or CUDA call failing: [main] gets as far as the kernel launch without an
    error and without having printed a value, and the kernel it launches
    reads the input at an index outside the input buffer.  The behaviour of
    the program is undefined from that access on: [Halt pre Undefined]
    gives the effects [pre] before it and describes nothing of what the
    process does afterwards. *)
Theorem main_tall_launch_reads_outside_input e argc argv H W R toks ftoks :
  3 <= argc ->
  input_file e (default EmptyString (argv !! 1%nat)) = Some (H, W, toks) ->
  filter_file e (default EmptyString (argv !! 2%nat)) = Some (R, ftoks) ->
  shape_ok H W -> window_ok H W R -> 3 <= R -> W < H ->
  4 * (H * W) <= Int.INT_MAX -> 4 * (R * R) <= Int.INT_MAX ->
  H * W <= Z.of_nat (length toks) -> R * R <= Z.of_nat (length ftoks) ->
  (forall b, malloc_null e b = false) -> (forall c, cuda_fails e c = false) ->
  exists pre k,
    main e argc argv = Halt pre Undefined /\
    print_values pre = [] /\
    last pre = Some GetLastError /\
    KernelLaunch (plan_grid H W) blockDim16 ∈ pre /\
    launch (schedule e (grid_workers (plan_grid H W) blockDim16))
      (take (Z.to_nat (H * W)) toks) (take (Z.to_nat (R * R)) ftoks)
      (resize (Z.to_nat (H * W)) f0 (fresh_device_memory e)) H W R blockDim16
      = Fault (RdInput k) /\
    ~ (0 <= k < H * W).
Proof.
  intros Hargc Hif Hff Hshape Hwin HR3 Hlt H4 R4 Htoks Hftoks Hmalloc Hcuda.
  pose proof Hshape as (HH & HW & HHW & _).
  pose proof Hwin as (HR & Hodd & HRR & _).
  assert (Hmain : main e argc argv = main e argc argv) by done.
  assert (Hcuda' : forall c, True -> cuda_fails e c = false) by (intros; apply Hcuda).
  main_to_launch Hmain e H W R toks ftoks Hcuda'.
  assert (Hin : length (take (Z.to_nat (H * W)) toks) = Z.to_nat (H * W))
    by (rewrite length_take; nia).
  assert (Hfl : length (take (Z.to_nat (R * R)) ftoks) = Z.to_nat (R * R))
    by (rewrite length_take; nia).
  match type of Hmain with context [launch ?s ?i ?f ?o H W R blockDim16] =>
    destruct (launch_tall_faults i f o H W R s) as [acc Hrun];
      [done|done|done|done|done|apply schedule_perm|by rewrite length_resize|];
    pose proof Hrun as Hrun';
    apply launch_fault_inv in Hrun' as (w & _ & _ & Hsum);
      [|done|by eapply sched_nonneg, schedule_perm|by rewrite length_resize]
  end.
  apply window_sum_fault_is_input_read in Hsum as (k & -> & Hoob); [|done..].
  rewrite Hrun, !after_after in Hmain.
  eexists _, k. split; [exact Hmain|].
  split; [done|]. split; [done|]. split.
  - simpl. rewrite !elem_of_cons. tauto.
  - split; [done|]. rewrite Hin in Hoob. nia.
Qed.

End HostRun.

(** ** What the exit status tells *)

Section ExitStatus.
Context {F : Type} {SF : Scalar F}.
Implicit Types (e : env F) (H W R : Z).

Lemma exit0_bind {A} (m : run F A) (k : A -> run F Z) :
  exit_status (m ≫= k) = Some 0 ->
  (forall t, m <> Halt t (Exit 0)) ->
  exists t a, m = Ret t a /\ exit_status (k a) = Some 0.
Proof.
  intros Hexit Hm. destruct m as [t a|t x].
  - exists t, a. split; [done|]. rewrite bind_Ret_l, exit_status_after in Hexit. done.
  - destruct x as [s|]; [|done]. simpl in Hexit. injection Hexit as ->.
    by destruct (Hm t).
Qed.

Lemma exit0_emit (ev : event F) (k : unit -> run F Z) :
  exit_status (emit ev ≫= k) = Some 0 -> exit_status (k tt) = Some 0.
Proof. by rewrite bind_emit, exit_status_after. Qed.

Lemma exit0_checked e c ev msg (k : unit -> run F Z) :
  exit_status (checked e c ev msg ≫= k) = Some 0 ->
  cuda_fails e c = false /\ exit_status (k tt) = Some 0.
Proof.
  unfold checked. rewrite bind_emit. destruct (cuda_fails e c); [done|].
  rewrite bind_after, bind_Ret_l, !exit_status_after. done.
Qed.

Lemma read_elements_inv e b n size toks t h :
  read_elements e b n size toks = Ret t h ->
  n <= Z.of_nat (length toks) /\ (is_Some h -> malloc_null e b = false).
Proof.
  unfold read_elements. rewrite bind_emit.
  destruct (_ <? Z.min _ _); [done|].
  destruct (Z.ltb_spec (Z.of_nat (length toks)) n); [done|].
  simpl. intros [= _ <-]. split; [lia|].
  destruct (malloc_null e b); [by intros [? ?]|done].
Qed.

Lemma read_elements_no_exit0 e b n size toks t :
  read_elements e b n size toks <> Halt t (Exit 0).
Proof.
  unfold read_elements. rewrite bind_emit.
  destruct (_ <? Z.min _ _); [done|].
  destruct (_ <? n); done.
Qed.

Lemma readInput_inv e path t h H W :
  readInput e path = Ret t (h, H, W) ->
  exists toks, input_file e path = Some (H, W, toks) /\
    Int.mul H W <= Z.of_nat (length toks) /\
    (is_Some h -> malloc_null e HInput = false).
Proof.
  unfold readInput. rewrite bind_emit.
  destruct (input_file e path) as [[[H' W'] toks]|]; [|done].
  destruct (read_elements _ _ _ _ _) as [t' a|t' e'] eqn:Hread; [|done].
  apply read_elements_inv in Hread. simpl. intros [= _ <- <- <-]. eauto.
Qed.

Lemma readInput_no_exit0 e path t : readInput e path <> Halt t (Exit 0).
Proof.
  unfold readInput. rewrite bind_emit.
  destruct (input_file e path) as [[[H' W'] toks]|]; [|done].
  destruct (read_elements _ _ _ _ _) as [t' a|t' e'] eqn:Hread; [done|].
  simpl. intros [= _ ->]. by apply read_elements_no_exit0 in Hread.
Qed.

Lemma readFilter_inv e path t h R :
  readFilter e path = Ret t (h, R) ->
  exists toks, filter_file e path = Some (R, toks) /\
    Int.mul R R <= Z.of_nat (length toks) /\
    (is_Some h -> malloc_null e HFilter = false).
Proof.
  unfold readFilter. rewrite bind_emit.
  destruct (filter_file e path) as [[R' toks]|]; [|done].
  destruct (read_elements _ _ _ _ _) as [t' a|t' e'] eqn:Hread; [|done].
  apply read_elements_inv in Hread. simpl. intros [= _ <- <-]. eauto.
Qed.

Lemma readFilter_no_exit0 e path t : readFilter e path <> Halt t (Exit 0).
Proof.
  unfold readFilter. rewrite bind_emit.
  destruct (filter_file e path) as [[R' toks]|]; [|done].
  destruct (read_elements _ _ _ _ _) as [t' a|t' e'] eqn:Hread; [done|].
  simpl. intros [= _ ->]. by apply read_elements_no_exit0 in Hread.
Qed.

Lemma for_each_run_no_exit (body : Z -> run F unit) (l : list Z) t s :
  (forall i t s, body i <> Halt t (Exit s)) ->
  for_each_run body l <> Halt t (Exit s).
Proof.
  intros Hbody. revert t. induction l as [|i l IH]; intros t; [done|].
  simpl. destruct (body i) as [t1 []|t1 x] eqn:Hi.
  - rewrite bind_Ret_l. destruct (for_each_run body l) as [|t2 x] eqn:Hl; [done|].
    simpl. intros [= _ ->]. by destruct (IH t2).
  - simpl. intros [= _ ->]. by destruct (Hbody i t1 s).
Qed.

Lemma writeOutput_no_exit (h_output : list F) H W t s :
  writeOutput h_output H W <> Halt t (Exit s).
Proof.
  unfold writeOutput. apply for_each_run_no_exit. intros i t' s'.
  apply for_each_run_no_exit. intros j t'' s''.
  by destruct (h_output !! _).
Qed.

(** X18. A zero exit status is earned: if [main] ends with status 0, it
    was given its two arguments, both files were opened and held at least
    the announced number of elements, none of the three host allocations
    returned NULL and none of the eleven checked CUDA calls failed. *)
Theorem main_exit_zero_means_no_failure e argc argv :
  exit_status (main e argc argv) = Some 0 ->
  3 <= argc /\
  (exists H W toks,
     input_file e (default EmptyString (argv !! 1%nat)) = Some (H, W, toks) /\
     Int.mul H W <= Z.of_nat (length toks)) /\
  (exists R ftoks,
     filter_file e (default EmptyString (argv !! 2%nat)) = Some (R, ftoks) /\
     Int.mul R R <= Z.of_nat (length ftoks)) /\
  (forall b, malloc_null e b = false) /\
  (forall c, cuda_fails e c = false).
Proof.
  unfold main. destruct (Z.ltb_spec argc 3) as [|Hargc]; [done|]. intros Hexit.
  apply exit0_bind in Hexit as (t1 & [[h_input H] W] & HrI & Hexit);
    [|apply readInput_no_exit0].
  apply readInput_inv in HrI as (toks & Hif & Htoks & HnI).
  apply exit0_bind in Hexit as (t2 & [h_filter R] & HrF & Hexit);
    [|apply readFilter_no_exit0].
  apply readFilter_inv in HrF as (ftoks & Hff & Hftoks & HnF).
  apply exit0_emit in Hexit.
  destruct h_input as [h_input|], h_filter as [h_filter|]; try done.
  apply exit0_checked in Hexit as [Hc1 Hexit].
  apply exit0_checked in Hexit as [Hc2 Hexit].
  apply exit0_checked in Hexit as [Hc3 Hexit].
  apply exit0_emit in Hexit.
  apply exit0_checked in Hexit as [Hc4 Hexit].
  apply exit0_checked in Hexit as [Hc5 Hexit].
  apply exit0_emit in Hexit. apply exit0_emit in Hexit.
  apply exit0_checked in Hexit as [Hc6 Hexit].
  destruct (launch _ _ _ _ _ _ _ _) as [d_output|acc]; [|done].
  apply exit0_emit in Hexit.
  destruct (malloc_null e HOutput) eqn:HnO; [done|].
  apply exit0_emit in Hexit.
  apply exit0_checked in Hexit as [Hc7 Hexit].
  apply exit0_bind in Hexit as (t3 & [] & _ & Hexit);
    [|intros t; apply writeOutput_no_exit].
  apply exit0_emit in Hexit.
  apply exit0_checked in Hexit as [Hc8 Hexit].
  apply exit0_checked in Hexit as [Hc9 Hexit].
  apply exit0_checked in Hexit as [Hc10 Hexit].
  do 3 apply exit0_emit in Hexit.
  apply exit0_checked in Hexit as [Hc11 Hexit].
  split; [done|]. split; [eauto|]. split; [eauto|]. split.
  - intros []; [apply HnI|apply HnF|]; eauto.
  - by intros [].
Qed.

(** X19. When the input file cannot be opened, [main] reports it and ends
    with [EXIT_FAILURE] at once: the filter file is not opened, nothing is
    allocated and no device call is made. *)
Theorem main_input_file_missing e argc argv :
  3 <= argc ->
  input_file e (default EmptyString (argv !! 1%nat)) = None ->
  main e argc argv =
    Halt [OpenFile (default EmptyString (argv !! 1%nat));
          Stderr ("Error: Could not open Input file "
                  +:+ default EmptyString (argv !! 1%nat))]
         (Exit EXIT_FAILURE).
Proof.
  intros Hargc Hif. unfold main, readInput.
  destruct (Z.ltb_spec argc 3); [lia|]. by rewrite Hif.
Qed.

(** The element loop on a file that ends early. *)
Lemma read_elements_short e b n toks :
  malloc_null e b = false -> 0 <= n -> 4 * n <= Int.INT_MAX ->
  Z.of_nat (length toks) < n ->
  read_elements e b n (Int.wrap (float_bytes n)) toks =
    Halt [HostAlloc (4 * n);
          Stderr ("Error: Invalid file format. Expected " +:+ pretty n
                  +:+ " elements.")]
         (Exit EXIT_FAILURE).
Proof.
  intros Hnull Hn Hmax Hlen. unfold read_elements.
  rewrite float_bytes_small by done.
  rewrite Int_wrap_fits by (unfold Int.fits, Int.INT_MIN, Int.INT_MAX in *; lia).
  assert (Hw : Size.wrap (4 * n) = 4 * n).
  { unfold Size.wrap, Int.INT_MAX in *. assert (2147483647 < 2 ^ 64) by done.
    apply Z.mod_small. lia. }
  rewrite Hw, Hnull. unfold Size.sizeof_float.
  rewrite (Z.mul_comm 4 n), Z.div_mul by lia.
  destruct (Z.ltb_spec n (Z.min n (Z.of_nat (length toks)))); [lia|].
  destruct (Z.ltb_spec (Z.of_nat (length toks)) n); [|lia]. done.
Qed.

(** X20. When the input file holds fewer numbers than its header announces,
    [main] allocates the host buffer, reports the expected count and ends
    with [EXIT_FAILURE]; the filter file is not opened and no device call is
    made (the buffer was allocated, and [4 * H * W] is in the range of
    [int]). *)
Theorem main_input_file_short e argc argv H W toks :
  3 <= argc ->
  input_file e (default EmptyString (argv !! 1%nat)) = Some (H, W, toks) ->
  malloc_null e HInput = false ->
  0 <= H * W -> 4 * (H * W) <= Int.INT_MAX ->
  Z.of_nat (length toks) < H * W ->
  main e argc argv =
    Halt [OpenFile (default EmptyString (argv !! 1%nat));
          HostAlloc (4 * (H * W));
          Stderr ("Error: Invalid file format. Expected " +:+ pretty (H * W)
                  +:+ " elements.")]
         (Exit EXIT_FAILURE).
Proof.
  intros Hargc Hif Hnull Hn Hmax Hlen. unfold main, readInput.
  destruct (Z.ltb_spec argc 3); [lia|]. rewrite bind_emit, Hif.
  rewrite Int_mul_fits by (unfold Int.fits, Int.INT_MIN, Int.INT_MAX in *; lia).
  by rewrite read_elements_short.
Qed.
End ExitStatus.

(** ** The host program on concrete runs *)

Lemma main_square_prints_contract_witness :
  let e := device_env (Some (3, 3, mat_3x3)) (fun _ => false) (fun _ => false) in
  let r := main e 3 ["conv2dV1"; "input.txt"; "filter.txt"] in
  exit_status r = Some 0 /\
  print_values (effects r) =
    (fun k => conv_spec (take (Z.to_nat (3 * 3)) mat_3x3)
                (take (Z.to_nat (3 * 3)) box_blur) 3 3 3 (k `div` 3) (k `mod` 3))
      <$> seqZ 0 (3 * 3).
Proof.
  apply (main_square_prints_contract
           (device_env (Some (3, 3, mat_3x3)) (fun _ => false) (fun _ => false))
           3 ["conv2dV1"; "input.txt"; "filter.txt"] 3 3 mat_3x3 box_blur).
  - lia.
  - reflexivity.
  - reflexivity.
  - unfold shape_ok, Int.INT_MAX. lia.
  - unfold window_ok, Int.INT_MAX. repeat split; lia.
  - unfold Int.INT_MAX. lia.
  - unfold Int.INT_MAX. lia.
  - simpl. lia.
  - simpl. lia.
  - reflexivity.
  - reflexivity.
Defined.

Lemma main_teardown_failure_after_output_witness :
  let e := device_env (Some (2, 3, mat_2x3))
             (fun c => match c with FreeFilter => true | _ => false end)
             (fun _ => false) in
  let r := main e 3 ["conv2dV1"; "input.txt"; "filter.txt"] in
  print_values (effects r) =
    ((fun k => conv_sum 2 (take (Z.to_nat (2 * 3)) mat_2x3)
                 (take (Z.to_nat (3 * 3)) box_blur) 2 3 3 (k `div` 3) (k `mod` 3))
       <$> seqZ 0 (2 * 3)) /\
  exit_status r = Some EXIT_FAILURE.
Proof.
  apply (main_teardown_failure_after_output
           (device_env (Some (2, 3, mat_2x3))
              (fun c => match c with FreeFilter => true | _ => false end)
              (fun _ => false))
           3 ["conv2dV1"; "input.txt"; "filter.txt"] 2 3 3 mat_2x3 box_blur).
  - lia.
  - reflexivity.
  - reflexivity.
  - unfold shape_ok, Int.INT_MAX. lia.
  - unfold window_ok, Int.INT_MAX. repeat split; lia.
  - lia.
  - unfold Int.INT_MAX. lia.
  - unfold Int.INT_MAX. lia.
  - simpl. lia.
  - simpl. lia.
  - reflexivity.
  - intros c Hc. simpl in Hc. by destruct Hc as [<-|[<-|[<-|[<-|[<-|[<-|[<-|[]]]]]]]].
Defined.

Lemma main_tall_launch_reads_outside_input_witness :
  let e := device_env (Some (3, 2, mat_2x3)) (fun _ => false) (fun _ => false) in
  exists pre k,
    main e 3 ["conv2dV1"; "input.txt"; "filter.txt"] = Halt pre Undefined /\
    print_values pre = [] /\
    last pre = Some GetLastError /\
    KernelLaunch (plan_grid 3 2) blockDim16 ∈ pre /\
    launch (schedule e (grid_workers (plan_grid 3 2) blockDim16))
      (take (Z.to_nat (3 * 2)) mat_2x3) (take (Z.to_nat (3 * 3)) box_blur)
      (resize (Z.to_nat (3 * 2)) f0 (fresh_device_memory e)) 3 2 3 blockDim16
      = Fault (RdInput k) /\
    ~ (0 <= k < 3 * 2).
Proof.
  apply (main_tall_launch_reads_outside_input
           (device_env (Some (3, 2, mat_2x3)) (fun _ => false) (fun _ => false))
           3 ["conv2dV1"; "input.txt"; "filter.txt"] 3 2 3 mat_2x3 box_blur).
  - lia.
  - reflexivity.
  - reflexivity.
  - unfold shape_ok, Int.INT_MAX. lia.
  - unfold window_ok, Int.INT_MAX. repeat split; lia.
  - lia.
  - lia.
  - unfold Int.INT_MAX. lia.
  - unfold Int.INT_MAX. lia.
  - simpl. lia.
  - simpl. lia.
  - reflexivity.
  - reflexivity.
Defined.

Lemma main_exit_zero_means_no_failure_witness :
  let argv := ["conv2dV1"; "input.txt"; "filter.txt"] in
  3 <= 3 /\
  (exists H W toks,
     input_file quiet_env (default EmptyString (argv !! 1%nat)) = Some (H, W, toks) /\
     Int.mul H W <= Z.of_nat (length toks)) /\
  (exists R ftoks,
     filter_file quiet_env (default EmptyString (argv !! 2%nat)) = Some (R, ftoks) /\
     Int.mul R R <= Z.of_nat (length ftoks)) /\
  (forall b, malloc_null quiet_env b = false) /\
  (forall c, cuda_fails quiet_env c = false).
Proof.
  apply (main_exit_zero_means_no_failure quiet_env 3
           ["conv2dV1"; "input.txt"; "filter.txt"]).
  vm_compute. reflexivity.
Defined.

Lemma main_input_file_missing_witness :
  main (device_env None (fun _ => false) (fun _ => false)) 3
       ["conv2dV1"; "input.txt"; "filter.txt"] =
    Halt [OpenFile "input.txt"; Stderr "Error: Could not open Input file input.txt"]
         (Exit EXIT_FAILURE).
Proof.
  apply (main_input_file_missing
           (device_env None (fun _ => false) (fun _ => false)) 3
           ["conv2dV1"; "input.txt"; "filter.txt"]).
  - lia.
  - reflexivity.
Defined.

Lemma main_input_file_short_witness :
  main (device_env (Some (3, 3, mat_2x3)) (fun _ => false) (fun _ => false)) 3
       ["conv2dV1"; "input.txt"; "filter.txt"] =
    Halt [OpenFile "input.txt"; HostAlloc (4 * (3 * 3));
          Stderr ("Error: Invalid file format. Expected " +:+ pretty (3 * 3)
                  +:+ " elements.")]
         (Exit EXIT_FAILURE).
Proof.
  apply (main_input_file_short
           (device_env (Some (3, 3, mat_2x3)) (fun _ => false) (fun _ => false)) 3
           ["conv2dV1"; "input.txt"; "filter.txt"] 3 3 mat_2x3).
  - lia.
  - reflexivity.
  - reflexivity.
  - lia.
  - unfold Int.INT_MAX. lia.
  - simpl. lia.
Defined.

Lemma main_deterministic_witness :
  let e := device_env (Some (3, 3, mat_3x3)) (fun _ => false) (fun _ => false) in
  main quiet_env 3 ["conv2dV1"; "input.txt"; "filter.txt"] =
    main e 3 ["conv2dV1"; "input.txt"; "filter.txt"] /\
  (forall t, main e 3 ["conv2dV1"; "input.txt"; "filter.txt"] <> Halt t Undefined).
Proof.
  apply (main_deterministic quiet_env
           (device_env (Some (3, 3, mat_3x3)) (fun _ => false) (fun _ => false))
           3 ["conv2dV1"; "input.txt"; "filter.txt"]).
  - reflexivity.
  - reflexivity.
  - reflexivity.
  - reflexivity.
  - intros H W toks [= <- <- _]. unfold shape_ok, Int.INT_MAX. lia.
  - intros t Heq. vm_compute in Heq. discriminate Heq.
Defined.
